(** * express_sqlite_cache: a shallow embedding of the SQLite cache engine
      and of the Express caching middleware (src/express_sqlite_cache.js).

    The file has two parts.  The first part embeds the program: JavaScript
    values and the built-ins the program calls (JSON.stringify, JSON.parse,
    MD5, Number.prototype.toFixed), the [cache] table with its prepared
    statements, the methods of class [SQLiteCache] and the function
    [createCacheMiddleware].  The second part states and proves properties
    of these definitions. *)

From Stdlib Require Import ZArith Lia String Ascii List.
From Stdlib Require Import DecimalString DecimalZ DecimalPos DecimalFacts.
From stdpp Require Import gmap strings list fin_maps sorting.

#[local] Set Warnings "-register-all".

Local Open Scope string_scope.
Local Open Scope Z_scope.

(* ===================================================================== *)
(** * Part I: the program                                                 *)
(* ===================================================================== *)

(** ** JavaScript values

    Strings are sequences of bytes: a JavaScript string is represented by
    its UTF-8 encoding (what SQLite's TEXT column stores and what
    [hash.update] feeds to MD5).  Numbers are the integers (standing for
    the safe integers of JavaScript), plus NaN; other doubles are outside
    the model.  An object is the list of its own properties in enumeration
    order; that JavaScript enumerates array-index keys first is not
    modelled. *)

Inductive js_value : Type :=
| VUndefined
| VNull
| VBool (b : bool)
| VNum (n : Z)
| VNaN
| VStr (s : string)
| VArr (elems : list js_value)
| VObj (members : list (string * js_value)).

(** ToBoolean, as used by [if (cached)], [!row], [ttl || ...]. *)
Definition truthy (v : js_value) : bool :=
  match v with
  | VUndefined | VNull | VNaN => false
  | VBool b => b
  | VNum n => negb (n =? 0)%Z
  | VStr s => negb (String.eqb s EmptyString)
  | VArr _ | VObj _ => true
  end.

(** [new Error(message)]. *)
Inductive js_error : Type :=
| Error (message : string)
| TypeError (message : string).

(** Outcome of a call that may throw. *)
Inductive result (A : Type) : Type :=
| Ok (a : A)
| Throw (e : js_error).
Arguments Ok {A} a.
Arguments Throw {A} e.

(** ** JSON.stringify *)

Definition dquote : ascii := "034"%char.
Definition backslash : ascii := "092"%char.

Definition hex_digit (n : N) : ascii :=
  match n with
  | 0%N => "0" | 1%N => "1" | 2%N => "2" | 3%N => "3" | 4%N => "4"
  | 5%N => "5" | 6%N => "6" | 7%N => "7" | 8%N => "8" | 9%N => "9"
  | 10%N => "a" | 11%N => "b" | 12%N => "c" | 13%N => "d" | 14%N => "e"
  | _ => "f"
  end%char.

(** QuoteJSONString on one character. *)
Definition escape_char (c : ascii) : string :=
  let n := N_of_ascii c in
  if (n =? 34)%N then String backslash (String dquote EmptyString)
  else if (n =? 92)%N then String backslash (String backslash EmptyString)
  else if (n =? 8)%N then String backslash "b"
  else if (n =? 12)%N then String backslash "f"
  else if (n =? 10)%N then String backslash "n"
  else if (n =? 13)%N then String backslash "r"
  else if (n =? 9)%N then String backslash "t"
  else if (n <? 32)%N then
    String backslash
      (String "u" (String "0" (String "0"
         (String (hex_digit (n / 16)) (String (hex_digit (n mod 16)) EmptyString)))))
  else String c EmptyString.

Fixpoint escape_chars (s : string) : string :=
  match s with
  | EmptyString => EmptyString
  | String c s' => escape_char c ++ escape_chars s'
  end.

Definition quote (s : string) : string :=
  String dquote (escape_chars s ++ String dquote EmptyString).

(** Number::toString on an integer. *)
Definition number_to_string (n : Z) : string :=
  NilZero.string_of_int (Z.to_int n).

(** [JSON.stringify(v)]; [None] is the result [undefined].  Inside an array
    an unserializable element is written as null, inside an object the
    property is left out. *)
Fixpoint JSON_stringify (v : js_value) : option string :=
  match v with
  | VUndefined => None
  | VNull => Some "null"
  | VBool true => Some "true"
  | VBool false => Some "false"
  | VNum n => Some (number_to_string n)
  | VNaN => Some "null"
  | VStr s => Some (quote s)
  | VArr elems =>
      Some ("[" ++
            String.concat ","
              ((fix items (l : list js_value) : list string :=
                  match l with
                  | [] => []
                  | e :: l' =>
                      match JSON_stringify e with
                      | Some t => t
                      | None => "null"
                      end :: items l'
                  end) elems) ++ "]")
  | VObj members =>
      Some ("{" ++
            String.concat ","
              ((fix props (l : list (string * js_value)) : list string :=
                  match l with
                  | [] => []
                  | (k, e) :: l' =>
                      match JSON_stringify e with
                      | Some t => (quote k ++ ":" ++ t) :: props l'
                      | None => props l'
                      end
                  end) members) ++ "}")
  end.

(** ** JSON.parse

    A recursive-descent parser for the JSON grammar of ECMA-404.  A number
    token with a fraction or an exponent denotes a double outside the
    integer model and is not given a value; [-0] is read as [0]. *)

Definition is_ws (c : ascii) : bool :=
  let n := N_of_ascii c in
  ((n =? 32) || (n =? 9) || (n =? 10) || (n =? 13))%N.

Fixpoint skip_ws (s : string) : string :=
  match s with
  | String c s' => if is_ws c then skip_ws s' else s
  | EmptyString => s
  end.

Definition hex_value (c : ascii) : option N :=
  let n := N_of_ascii c in
  if ((48 <=? n) && (n <=? 57))%N then Some (n - 48)%N
  else if ((97 <=? n) && (n <=? 102))%N then Some (n - 87)%N
  else if ((65 <=? n) && (n <=? 70))%N then Some (n - 55)%N
  else None.

Definition hex4 (a b c d : ascii) : option N :=
  match hex_value a, hex_value b, hex_value c, hex_value d with
  | Some x, Some y, Some z, Some w => Some (((x * 16 + y) * 16 + z) * 16 + w)%N
  | _, _, _, _ => None
  end.

(** UTF-8 encoding of a code point (a lone surrogate is encoded like any
    other three-byte code point). *)
Definition utf8_encode (cp : N) : string :=
  let byte (n : N) := ascii_of_N n in
  (if cp <? 128 then String (byte cp) EmptyString
   else if cp <? 2048 then
     String (byte (192 + cp / 64)) (String (byte (128 + cp mod 64)) EmptyString)
   else if cp <? 65536 then
     String (byte (224 + cp / 4096))
       (String (byte (128 + (cp / 64) mod 64))
          (String (byte (128 + cp mod 64)) EmptyString))
   else
     String (byte (240 + cp / 262144))
       (String (byte (128 + (cp / 4096) mod 64))
          (String (byte (128 + (cp / 64) mod 64))
             (String (byte (128 + cp mod 64)) EmptyString))))%N.

Definition prepend (t : string) (r : option (string * string)) : option (string * string) :=
  match r with
  | Some (body, rest) => Some (t ++ body, rest)
  | None => None
  end.

(** The characters of a string literal after its opening quote, up to and
    including the closing quote: the decoded string and the remaining
    input. *)
Fixpoint parse_string_body (s : string) : option (string * string) :=
  match s with
  | EmptyString => None
  | String c r =>
      if Ascii.eqb c dquote then Some (EmptyString, r)
      else if Ascii.eqb c backslash then
        match r with
        | EmptyString => None
        | String e r1 =>
            let simple (x : ascii) := prepend (String x EmptyString) (parse_string_body r1) in
            if Ascii.eqb e dquote then simple dquote
            else if Ascii.eqb e backslash then simple backslash
            else if Ascii.eqb e "/" then simple "/"%char
            else if Ascii.eqb e "b" then simple "008"%char
            else if Ascii.eqb e "f" then simple "012"%char
            else if Ascii.eqb e "n" then simple "010"%char
            else if Ascii.eqb e "r" then simple "013"%char
            else if Ascii.eqb e "t" then simple "009"%char
            else if Ascii.eqb e "u" then
              match r1 with
              | String h1 (String h2 (String h3 (String h4 r2))) =>
                  match hex4 h1 h2 h3 h4 with
                  | None => None
                  | Some hi =>
                      let single := prepend (utf8_encode hi) (parse_string_body r2) in
                      if ((55296 <=? hi) && (hi <? 56320))%N then
                        match r2 with
                        | String b2 (String u2 (String l1 (String l2 (String l3 (String l4 r3))))) =>
                            if Ascii.eqb b2 backslash && Ascii.eqb u2 "u" then
                              match hex4 l1 l2 l3 l4 with
                              | Some lo =>
                                  if ((56320 <=? lo) && (lo <? 57344))%N then
                                    prepend
                                      (utf8_encode (65536 + (hi - 55296) * 1024 + (lo - 56320))%N)
                                      (parse_string_body r3)
                                  else single
                              | None => single
                              end
                            else single
                        | _ => single
                        end
                      else single
                  end
              | _ => None
              end
            else None
        end
      else if (N_of_ascii c <? 32)%N then None
      else prepend (String c EmptyString) (parse_string_body r)
  end.

Definition digit_of (c : ascii) : option (Decimal.uint -> Decimal.uint) :=
  match c with
  | "0" => Some Decimal.D0 | "1" => Some Decimal.D1 | "2" => Some Decimal.D2
  | "3" => Some Decimal.D3 | "4" => Some Decimal.D4 | "5" => Some Decimal.D5
  | "6" => Some Decimal.D6 | "7" => Some Decimal.D7 | "8" => Some Decimal.D8
  | "9" => Some Decimal.D9 | _ => None
  end%char.

(** The longest prefix of decimal digits. *)
Fixpoint read_digits (s : string) : Decimal.uint * string :=
  match s with
  | EmptyString => (Decimal.Nil, s)
  | String c r =>
      match digit_of c with
      | Some d => let (u, r') := read_digits r in (d u, r')
      | None => (Decimal.Nil, s)
      end
  end.

Definition starts_fraction (s : string) : bool :=
  match s with
  | String c _ => Ascii.eqb c "." || Ascii.eqb c "e" || Ascii.eqb c "E"
  | EmptyString => false
  end.

Definition parse_number (s : string) : option (js_value * string) :=
  let (negative, s1) :=
    match s with
    | String c r => if Ascii.eqb c "-" then (true, r) else (false, s)
    | EmptyString => (false, s)
    end in
  let (u, r) := read_digits s1 in
  match u with
  | Decimal.Nil => None
  | Decimal.D0 (Decimal.D0 _ | Decimal.D1 _ | Decimal.D2 _ | Decimal.D3 _ | Decimal.D4 _
               | Decimal.D5 _ | Decimal.D6 _ | Decimal.D7 _ | Decimal.D8 _ | Decimal.D9 _) => None
  | _ =>
      if starts_fraction r then None
      else Some (VNum (Z.of_int (if negative then Decimal.Neg u else Decimal.Pos u)), r)
  end.

(** [s] without its prefix [lit], when it has it. *)
Fixpoint strip_prefix (lit s : string) : option string :=
  match lit with
  | EmptyString => Some s
  | String a lit' =>
      match s with
      | String b s' => if Ascii.eqb a b then strip_prefix lit' s' else None
      | EmptyString => None
      end
  end.

Definition expect (lit : string) (v : js_value) (s : string) : option (js_value * string) :=
  match strip_prefix lit s with
  | Some r => Some (v, r)
  | None => None
  end.

(** [o[k] = v] while an object literal is read: a repeated key keeps its
    place and takes the later value. *)
Fixpoint obj_define (k : string) (v : js_value) (o : list (string * js_value))
  : list (string * js_value) :=
  match o with
  | [] => [(k, v)]
  | (k', v') :: o' =>
      if String.eqb k k' then (k', v) :: o' else (k', v') :: obj_define k v o'
  end.

Fixpoint parse_value (fuel : nat) (s : string) {struct fuel} : option (js_value * string) :=
  match fuel with
  | O => None
  | S fuel' =>
      match skip_ws s with
      | EmptyString => None
      | String c r =>
          if Ascii.eqb c "n" then expect "ull" VNull r
          else if Ascii.eqb c "t" then expect "rue" (VBool true) r
          else if Ascii.eqb c "f" then expect "alse" (VBool false) r
          else if Ascii.eqb c dquote then
            match parse_string_body r with
            | Some (str, r') => Some (VStr str, r')
            | None => None
            end
          else if Ascii.eqb c "[" then
            match skip_ws r with
            | String c' r' =>
                if Ascii.eqb c' "]" then Some (VArr [], r') else parse_elements fuel' r []
            | EmptyString => None
            end
          else if Ascii.eqb c "{" then
            match skip_ws r with
            | String c' r' =>
                if Ascii.eqb c' "}" then Some (VObj [], r') else parse_members fuel' r []
            | EmptyString => None
            end
          else parse_number (String c r)
      end
  end
with parse_elements (fuel : nat) (s : string) (acc : list js_value) {struct fuel}
  : option (js_value * string) :=
  match fuel with
  | O => None
  | S fuel' =>
      match parse_value fuel' s with
      | None => None
      | Some (v, r) =>
          match skip_ws r with
          | String c r' =>
              if Ascii.eqb c "," then parse_elements fuel' r' (acc ++ [v])%list
              else if Ascii.eqb c "]" then Some (VArr (acc ++ [v])%list, r')
              else None
          | EmptyString => None
          end
      end
  end
with parse_members (fuel : nat) (s : string) (acc : list (string * js_value)) {struct fuel}
  : option (js_value * string) :=
  match fuel with
  | O => None
  | S fuel' =>
      match skip_ws s with
      | String c r =>
          if Ascii.eqb c dquote then
            match parse_string_body r with
            | None => None
            | Some (k, r1) =>
                match skip_ws r1 with
                | String c1 r2 =>
                    if Ascii.eqb c1 ":" then
                      match parse_value fuel' r2 with
                      | None => None
                      | Some (v, r3) =>
                          match skip_ws r3 with
                          | String c3 r4 =>
                              if Ascii.eqb c3 "," then
                                parse_members fuel' r4 (obj_define k v acc)
                              else if Ascii.eqb c3 "}" then
                                Some (VObj (obj_define k v acc), r4)
                              else None
                          | EmptyString => None
                          end
                      end
                    else None
                | EmptyString => None
                end
            end
          else None
      | EmptyString => None
      end
  end.

(** [JSON.parse(text)]; [None] stands for the SyntaxError it throws.  The
    fuel of the descent is the length of the text. *)
Definition JSON_parse (text : string) : option js_value :=
  match parse_value (S (String.length text)) text with
  | Some (v, rest) =>
      match skip_ws rest with
      | EmptyString => Some v
      | String _ _ => None
      end
  | None => None
  end.


(** ** IEEE 754 division and Number.prototype.toFixed

    A double is written [mant * 2^expo].  [js_div a b] is the quotient of
    two integers that are exactly representable, for a positive divisor:
    the exact quotient rounded to 53 significant bits, ties to even. *)

Record double : Type := { mant : Z; expo : Z }.

Definition div_magnitude (a b : Z) : double :=
  let la := Z.log2 a in
  let lb := Z.log2 b in
  let e := if a * 2 ^ lb >=? b * 2 ^ la then la - lb - 52 else la - lb - 53 in
  let num := if e >=? 0 then a else a * 2 ^ (- e) in
  let den := if e >=? 0 then b * 2 ^ e else b in
  let q := num / den in
  let r := num mod den in
  let m := if (2 * r >? den) || ((2 * r =? den) && Z.odd q) then q + 1 else q in
  {| mant := m; expo := e |}.

Definition js_div (a b : Z) : double :=
  if a =? 0 then {| mant := 0; expo := 0 |}
  else if a >? 0 then div_magnitude a b
  else let d := div_magnitude (- a) b in {| mant := - mant d; expo := expo d |}.

(** The integer [n] for which [n / scale - x] is as close to zero as
    possible, the larger one when there are two (for [x >= 0]). *)
Definition nearest_multiple (scale : Z) (x : double) : Z :=
  let xn := if expo x >=? 0 then mant x * 2 ^ expo x else mant x in
  let xd := if expo x >=? 0 then 1 else 2 ^ (- expo x) in
  (2 * scale * xn + xd) / (2 * xd).

Definition two_digits (n : Z) : string :=
  number_to_string (n / 10) ++ number_to_string (n mod 10).

(** The text of [n / 100] with two digits after the point. *)
Definition fixed2 (n : Z) : string :=
  number_to_string (n / 100) ++ "." ++ two_digits (n mod 100).

(** [x.toFixed(2)], for [|x| < 1e21]. *)
Definition toFixed2 (x : double) : string :=
  if mant x <? 0
  then "-" ++ fixed2 (nearest_multiple 100 {| mant := - mant x; expo := expo x |})
  else fixed2 (nearest_multiple 100 x).

(** [Math.round(x)]: the integer nearest to [x], ties towards +infinity. *)
Definition Math_round (x : double) : Z :=
  let xn := if expo x >=? 0 then mant x * 2 ^ expo x else mant x in
  let xd := if expo x >=? 0 then 1 else 2 ^ (- expo x) in
  (2 * xn + xd) / (2 * xd).


(** ** The cache table

    One row per key ([key TEXT PRIMARY KEY]); the other columns of the
    schema are the fields of [row].  Timestamps are seconds since the
    epoch.  [hit_count] is a 64-bit SQLite integer; its overflow is not
    modelled. *)

Record row : Type := {
  value : string;
  expires_at : Z;
  created_at : Z;
  accessed_at : Z;
  hit_count : Z
}.

Abbreviation table := (gmap string row).

(** [WHERE expires_at > unixepoch()] and [WHERE expires_at <= unixepoch()]. *)
Definition is_active (now : Z) (r : row) : bool := expires_at r >? now.
Definition is_expired (now : Z) (r : row) : bool := expires_at r <=? now.

(** ** Prepared statements ([prepareStatements]); [now] is [unixepoch()]. *)

(** [INSERT OR REPLACE INTO cache (key, value, expires_at, accessed_at, hit_count)
    VALUES (?, ?, ?, unixepoch(), 1)]: a row with the same key is deleted,
    the new row takes the column default for [created_at]. *)
Definition stmt_set (now : Z) (key val : string) (expiresAt : Z) (t : table) : table :=
  <[key := {| value := val; expires_at := expiresAt; created_at := now;
              accessed_at := now; hit_count := 1 |}]> t.

(** [SELECT value, expires_at, hit_count FROM cache WHERE key = ? AND expires_at > unixepoch()] *)
Definition stmt_get (now : Z) (key : string) (t : table) : option row :=
  match t !! key with
  | Some r => if is_active now r then Some r else None
  | None => None
  end.

(** [UPDATE cache SET accessed_at = unixepoch(), hit_count = hit_count + 1 WHERE key = ?] *)
Definition touch (now : Z) (r : row) : row :=
  {| value := value r; expires_at := expires_at r; created_at := created_at r;
     accessed_at := now; hit_count := hit_count r + 1 |}.

Definition stmt_updateAccess (now : Z) (key : string) (t : table) : table :=
  alter (touch now) key t.

(** [DELETE FROM cache WHERE key = ?], with the number of rows changed. *)
Definition stmt_delete (key : string) (t : table) : Z * table :=
  (match t !! key with Some _ => 1 | None => 0 end, delete key t).

(** [SELECT 1 FROM cache WHERE key = ? AND expires_at > unixepoch()] *)
Definition stmt_has (now : Z) (key : string) (t : table) : option Z :=
  match stmt_get now key t with
  | Some _ => Some 1
  | None => None
  end.

(** [DELETE FROM cache] *)
Definition stmt_clear (t : table) : table := ∅.

(** [DELETE FROM cache WHERE expires_at <= unixepoch()], with the number of
    rows changed. *)
Definition stmt_cleanup (now : Z) (t : table) : Z * table :=
  (Z.of_nat (size (filter (λ kr, is_expired now kr.2 = true) t)),
   filter (λ kr, is_expired now kr.2 = false) t).

(** [LENGTH(value)] counts characters: the bytes that do not continue a
    UTF-8 sequence. *)
Fixpoint sql_length (s : string) : Z :=
  match s with
  | EmptyString => 0
  | String c s' =>
      (if (N.land (N_of_ascii c) 192 =? 128)%N then 0 else 1) + sql_length s'
  end.

(** The row of aggregates of the [stats] statement; SUM and AVG over no
    rows are NULL. *)
Record stats_row : Type := {
  sr_total : Z;
  sr_active : option Z;
  sr_expired : option Z;
  sr_avg_size : option double;
  sr_total_hits : option Z
}.

Definition count_rows (p : row -> bool) (t : table) : Z :=
  Z.of_nat (size (filter (λ kr, p kr.2 = true) t)).

Definition sum_rows (f : row -> Z) (t : table) : Z :=
  map_fold (λ _ r acc, f r + acc) 0 t.

Definition stmt_stats (now : Z) (t : table) : stats_row :=
  let total := Z.of_nat (size t) in
  if total =? 0 then
    {| sr_total := 0; sr_active := None; sr_expired := None;
       sr_avg_size := None; sr_total_hits := None |}
  else
    {| sr_total := total;
       sr_active := Some (count_rows (is_active now) t);
       sr_expired := Some (count_rows (is_expired now) t);
       sr_avg_size := Some (js_div (sum_rows (λ r, sql_length (value r)) t) total);
       sr_total_hits := Some (sum_rows hit_count t) |}.

(** [SELECT ... FROM cache WHERE expires_at > unixepoch()
     ORDER BY accessed_at DESC LIMIT ?]; a negative limit is no limit.
    SQLite leaves the order of rows with equal [accessed_at] open; here
    the sort is stable over the key order of the table. *)
Definition newer_first (a b : string * row) : Prop := accessed_at b.2 ≤ accessed_at a.2.

#[local] Instance newer_first_dec : RelDecision newer_first :=
  λ a b, decide (accessed_at b.2 ≤ accessed_at a.2).

Definition stmt_getAll (now : Z) (limit : Z) (t : table) : list (string * row) :=
  let rows := filter (λ kr, is_active now kr.2 = true) (map_to_list t) in
  let sorted := merge_sort newer_first rows in
  if limit <? 0 then sorted else take (Z.to_nat limit) sorted.

(** ** class SQLiteCache *)

(** [this.statements]: the empty object of the constructor, the statements
    prepared by [init], or those statements after the database they belong
    to was closed. *)
Inductive statements_state : Type :=
| NotPrepared
| Prepared
| Finalized.

Record SQLiteCache : Type := {
  dbPath : string;
  defaultTTL : Z;
  cleanupInterval : Z;
  db : option table;              (* [null], or the database and its [cache] table *)
  cleanupTimer : bool;            (* whether the interval timer is set *)
  statements : statements_state
}.

Definition with_db (c : SQLiteCache) (d : option table) : SQLiteCache :=
  {| dbPath := dbPath c; defaultTTL := defaultTTL c;
     cleanupInterval := cleanupInterval c; db := d;
     cleanupTimer := cleanupTimer c; statements := statements c |}.

Definition with_timer (c : SQLiteCache) (b : bool) : SQLiteCache :=
  {| dbPath := dbPath c; defaultTTL := defaultTTL c;
     cleanupInterval := cleanupInterval c; db := db c;
     cleanupTimer := b; statements := statements c |}.

Definition with_statements (c : SQLiteCache) (st : statements_state) : SQLiteCache :=
  {| dbPath := dbPath c; defaultTTL := defaultTTL c;
     cleanupInterval := cleanupInterval c; db := db c;
     cleanupTimer := cleanupTimer c; statements := st |}.

(** [a || b] on an optional number: [undefined], [null] and [0] are falsy. *)
Definition or_default (a : option Z) (b : Z) : Z :=
  match a with
  | Some n => if n =? 0 then b else n
  | None => b
  end.

Record cache_options : Type := {
  opt_defaultTTL : option Z;
  opt_cleanupInterval : option Z
}.

(** [constructor(dbPath = ':memory:', options = {})] *)
Definition constructor (path : option string) (options : cache_options) : SQLiteCache :=
  {| dbPath := match path with Some p => p | None => ":memory:" end;
     defaultTTL := or_default (opt_defaultTTL options) 3600;
     cleanupInterval := or_default (opt_cleanupInterval options) 300000;
     db := None;
     cleanupTimer := false;
     statements := NotPrepared |}.

Definition not_initialized : js_error := Error "Cache not initialized".

(** What the storage does during [init]: opening it fails ([mkdirSync] or
    [new DatabaseSync] throws); or the database is opened and a later
    [exec] or [prepare] throws; or all of it succeeds and the [cache] table
    holds [stored] (nothing for a new database). *)
Inductive storage : Type :=
| OpenFails (message : string)
| SchemaFails (message : string)
| Opened (stored : table).

(** [startCleanup()] *)
Definition startCleanup (c : SQLiteCache) : SQLiteCache := with_timer c true.

(** [init()].  When the schema fails, [this.db] has been assigned and
    [this.statements] is what it was; statements prepared by an earlier
    [init] keep acting on the table they were prepared for. *)
Definition init (env : storage) (c : SQLiteCache) : result bool * SQLiteCache :=
  match env with
  | OpenFails msg => (Throw (Error ("Failed to initialize cache: " ++ msg)), c)
  | SchemaFails msg =>
      (Throw (Error ("Failed to initialize cache: " ++ msg)),
       with_db c (Some (match db c with Some t => t | None => ∅ end)))
  | Opened stored =>
      (Ok true, startCleanup (with_statements (with_db c (Some stored)) Prepared))
  end.

(** The message of the error thrown by [this.statements.<name>.<method>(...)]
    when the statement cannot be used: the TypeError of a property read on
    [undefined], or the error of a finalized statement. *)
Definition unusable (st : statements_state) (method : string) : option string :=
  match st with
  | Prepared => None
  | NotPrepared => Some ("Cannot read properties of undefined (reading '" ++ method ++ "')")
  | Finalized => Some "statement has been finalized"
  end.

(** The message of the error [run] throws when asked to bind [undefined]. *)
Definition bind_error : string := "Provided value cannot be bound to SQLite parameter 2.".

(** The message of the SyntaxError of [JSON.parse] (V8 words it after the
    offending token; the wording is not modelled). *)
Definition syntax_error : string := "Unexpected token in JSON".

(** [set(key, value, ttl = null)]; [ttl] is [None] for a missing, undefined
    or null argument. *)
Definition set (now : Z) (key : string) (v : js_value) (ttl : option Z) (c : SQLiteCache)
  : result bool * SQLiteCache :=
  match db c with
  | None => (Throw not_initialized, c)
  | Some t =>
      let actualTTL := or_default ttl (defaultTTL c) in
      let expiresAt := now + actualTTL in
      match unusable (statements c) "run" with
      | Some msg => (Throw (Error ("Failed to set cache: " ++ msg)), c)
      | None =>
          match JSON_stringify v with
          | Some serializedValue =>
              (Ok true, with_db c (Some (stmt_set now key serializedValue expiresAt t)))
          | None => (Throw (Error ("Failed to set cache: " ++ bind_error)), c)
          end
      end
  end.

(** [get(key)] *)
Definition get (now : Z) (key : string) (c : SQLiteCache) : result js_value * SQLiteCache :=
  match db c with
  | None => (Throw not_initialized, c)
  | Some t =>
      match unusable (statements c) "get" with
      | Some msg => (Throw (Error ("Failed to get cache: " ++ msg)), c)
      | None =>
          match stmt_get now key t with
          | None => (Ok VNull, c)
          | Some r =>
              let c' := with_db c (Some (stmt_updateAccess now key t)) in
              match JSON_parse (value r) with
              | Some v => (Ok v, c')
              | None => (Throw (Error ("Failed to get cache: " ++ syntax_error)), c')
              end
          end
      end
  end.

(** [delete(key)] *)
Definition delete_ (key : string) (c : SQLiteCache) : result bool * SQLiteCache :=
  match db c with
  | None => (Throw not_initialized, c)
  | Some t =>
      match unusable (statements c) "run" with
      | Some msg => (Throw (Error ("Failed to delete cache: " ++ msg)), c)
      | None =>
          let (changes, t') := stmt_delete key t in
          (Ok (changes >? 0), with_db c (Some t'))
      end
  end.

(** [has(key)] *)
Definition has (now : Z) (key : string) (c : SQLiteCache) : result bool * SQLiteCache :=
  match db c with
  | None => (Throw not_initialized, c)
  | Some t =>
      match unusable (statements c) "get" with
      | Some msg => (Throw (Error ("Failed to check cache: " ++ msg)), c)
      | None =>
          (Ok (match stmt_has now key t with Some _ => true | None => false end), c)
      end
  end.

(** [clear()] *)
Definition clear (c : SQLiteCache) : result bool * SQLiteCache :=
  match db c with
  | None => (Throw not_initialized, c)
  | Some t =>
      match unusable (statements c) "run" with
      | Some msg => (Throw (Error ("Failed to clear cache: " ++ msg)), c)
      | None => (Ok true, with_db c (Some (stmt_clear t)))
      end
  end.

Record stats_result : Type := {
  total : Z;
  active : Z;
  expired : Z;
  avg_size : Z;
  total_hits : Z;
  hit_rate : string
}.

(** [x || 0] on a nullable number. *)
Definition or_zero (x : option Z) : Z := or_default x 0.

(** [stats()] *)
Definition stats (now : Z) (c : SQLiteCache) : result stats_result * SQLiteCache :=
  match db c with
  | None => (Throw not_initialized, c)
  | Some t =>
      match unusable (statements c) "get" with
      | Some msg => (Throw (Error ("Failed to get stats: " ++ msg)), c)
      | None =>
          let st := stmt_stats now t in
          (Ok {| total := or_zero (Some (sr_total st));
                 active := or_zero (sr_active st);
                 expired := or_zero (sr_expired st);
                 avg_size := match sr_avg_size st with
                             | Some a => Math_round a
                             | None => 0
                             end;
                 total_hits := or_zero (sr_total_hits st);
                 hit_rate := if sr_total st >? 0
                             then toFixed2 (js_div (or_zero (sr_total_hits st)) (sr_total st))
                             else "0.00" |}, c)
      end
  end.

(** An element of the result of [getAllEntries]; a [Date] is its time
    value in milliseconds. *)
Record entry : Type := {
  e_key : string;
  e_value : js_value;
  e_expires_at : Z;
  e_created_at : Z;
  e_accessed_at : Z;
  e_hit_count : Z
}.

(** [rows.map(row => ({ ..., value: JSON.parse(row.value), ... }))]; the
    first row that does not parse throws. *)
Fixpoint map_rows (rows : list (string * row)) : option (list entry) :=
  match rows with
  | [] => Some []
  | (k, r) :: rows' =>
      match JSON_parse (value r) with
      | None => None
      | Some v =>
          match map_rows rows' with
          | None => None
          | Some es =>
              Some ({| e_key := k; e_value := v;
                       e_expires_at := expires_at r * 1000;
                       e_created_at := created_at r * 1000;
                       e_accessed_at := accessed_at r * 1000;
                       e_hit_count := hit_count r |} :: es)
          end
      end
  end.

(** [getAllEntries(limit = 50)] *)
Definition getAllEntries (now : Z) (limit : option Z) (c : SQLiteCache)
  : result (list entry) * SQLiteCache :=
  match db c with
  | None => (Throw not_initialized, c)
  | Some t =>
      match unusable (statements c) "all" with
      | Some msg => (Throw (Error ("Failed to get all entries: " ++ msg)), c)
      | None =>
          let rows := stmt_getAll now (match limit with Some l => l | None => 50 end) t in
          match map_rows rows with
          | Some es => (Ok es, c)
          | None => (Throw (Error ("Failed to get all entries: " ++ syntax_error)), c)
          end
      end
  end.

(** [cleanup()] *)
Definition cleanup (now : Z) (c : SQLiteCache) : result Z * SQLiteCache :=
  match db c with
  | None => (Ok 0, c)
  | Some t =>
      match unusable (statements c) "run" with
      | Some msg => (Throw (Error ("Cleanup failed: " ++ msg)), c)
      | None =>
          let (changes, t') := stmt_cleanup now t in
          (Ok changes, with_db c (Some t'))
      end
  end.

(** One firing of the interval timer set by [startCleanup]: the result of
    [cleanup] is logged, an error is caught and logged. *)
Definition cleanup_tick (now : Z) (c : SQLiteCache) : SQLiteCache :=
  snd (cleanup now c).

(** [close()]: closing the database finalizes its statements. *)
Definition close (c : SQLiteCache) : SQLiteCache :=
  let c' := with_timer c false in
  match db c' with
  | Some _ =>
      with_db (with_statements c' (match statements c' with
                                   | Prepared => Finalized
                                   | st => st
                                   end)) None
  | None => c'
  end.

(** ** MD5 (RFC 1321), as computed by [crypto.createHash('md5')] *)

Module MD5.

Definition mask32 : Z := 0xffffffff.
Definition add32 (a b : Z) : Z := Z.land (a + b) mask32.
Definition not32 (a : Z) : Z := Z.lxor a mask32.
Definition rotl32 (x n : Z) : Z :=
  Z.land (Z.lor (Z.shiftl x n) (Z.shiftr x (32 - n))) mask32.

(** [floor(2^32 * abs(sin(i + 1)))] for [i = 0 .. 63]. *)
Definition K : list Z :=
  [0xd76aa478; 0xe8c7b756; 0x242070db; 0xc1bdceee;
   0xf57c0faf; 0x4787c62a; 0xa8304613; 0xfd469501;
   0x698098d8; 0x8b44f7af; 0xffff5bb1; 0x895cd7be;
   0x6b901122; 0xfd987193; 0xa679438e; 0x49b40821;
   0xf61e2562; 0xc040b340; 0x265e5a51; 0xe9b6c7aa;
   0xd62f105d; 0x02441453; 0xd8a1e681; 0xe7d3fbc8;
   0x21e1cde6; 0xc33707d6; 0xf4d50d87; 0x455a14ed;
   0xa9e3e905; 0xfcefa3f8; 0x676f02d9; 0x8d2a4c8a;
   0xfffa3942; 0x8771f681; 0x6d9d6122; 0xfde5380c;
   0xa4beea44; 0x4bdecfa9; 0xf6bb4b60; 0xbebfbc70;
   0x289b7ec6; 0xeaa127fa; 0xd4ef3085; 0x04881d05;
   0xd9d4d039; 0xe6db99e5; 0x1fa27cf8; 0xc4ac5665;
   0xf4292244; 0x432aff97; 0xab9423a7; 0xfc93a039;
   0x655b59c3; 0x8f0ccc92; 0xffeff47d; 0x85845dd1;
   0x6fa87e4f; 0xfe2ce6e0; 0xa3014314; 0x4e0811a1;
   0xf7537e82; 0xbd3af235; 0x2ad7d2bb; 0xeb86d391].

Definition S : list Z :=
  [7; 12; 17; 22; 7; 12; 17; 22; 7; 12; 17; 22; 7; 12; 17; 22;
   5; 9; 14; 20; 5; 9; 14; 20; 5; 9; 14; 20; 5; 9; 14; 20;
   4; 11; 16; 23; 4; 11; 16; 23; 4; 11; 16; 23; 4; 11; 16; 23;
   6; 10; 15; 21; 6; 10; 15; 21; 6; 10; 15; 21; 6; 10; 15; 21].

Record state : Type := { sA : Z; sB : Z; sC : Z; sD : Z }.

Definition init_state : state :=
  {| sA := 0x67452301; sB := 0xefcdab89; sC := 0x98badcfe; sD := 0x10325476 |}.

(** Operation [i] of a block with message words [M]. *)
Definition step (M : list Z) (st : state) (i : nat) : state :=
  let '(a, b, c, d) := (sA st, sB st, sC st, sD st) in
  let iz := Z.of_nat i in
  let '(f, g) :=
    if iz <? 16 then (Z.lor (Z.land b c) (Z.land (not32 b) d), iz)
    else if iz <? 32 then (Z.lor (Z.land d b) (Z.land (not32 d) c), (5 * iz + 1) mod 16)
    else if iz <? 48 then (Z.lxor (Z.lxor b c) d, (3 * iz + 5) mod 16)
    else (Z.lxor c (Z.lor b (not32 d)), (7 * iz) mod 16) in
  let f' := add32 (add32 (add32 f a) (nth i K 0)) (nth (Z.to_nat g) M 0) in
  {| sA := d; sB := add32 b (rotl32 f' (nth i S 0)); sC := b; sD := c |}.

(** Four bytes, least significant first, as a word. *)
Definition word_of_bytes (bs : list Z) : Z :=
  nth 0 bs 0 + Z.shiftl (nth 1 bs 0) 8 + Z.shiftl (nth 2 bs 0) 16 + Z.shiftl (nth 3 bs 0) 24.

Fixpoint words_of_bytes (n : nat) (bs : list Z) : list Z :=
  match n with
  | O => []
  | Datatypes.S n' => word_of_bytes (take 4 bs) :: words_of_bytes n' (drop 4 bs)
  end.

Definition process_block (st : state) (block : list Z) : state :=
  let M := words_of_bytes 16 block in
  let st' := fold_left (step M) (seq 0 64) st in
  {| sA := add32 (sA st) (sA st'); sB := add32 (sB st) (sB st');
     sC := add32 (sC st) (sC st'); sD := add32 (sD st) (sD st') |}.

Fixpoint process_blocks (n : nat) (st : state) (bs : list Z) : state :=
  match n with
  | O => st
  | Datatypes.S n' => process_blocks n' (process_block st (take 64 bs)) (drop 64 bs)
  end.

(** [n] bytes of [x], least significant first. *)
Fixpoint le_bytes (n : nat) (x : Z) : list Z :=
  match n with
  | O => []
  | Datatypes.S n' => Z.land x 255 :: le_bytes n' (Z.shiftr x 8)
  end.

(** The message, a 1 bit, zeros up to 56 modulo 64, the bit length. *)
Definition pad (msg : list Z) : list Z :=
  let len := Z.of_nat (length msg) in
  (msg ++ [128] ++ replicate (Z.to_nat ((55 - len) mod 64)) 0
       ++ le_bytes 8 (Z.land (8 * len) 0xffffffffffffffff))%list.

Definition digest (msg : list Z) : list Z :=
  let padded := pad msg in
  let st := process_blocks (length padded / 64) init_state padded in
  (le_bytes 4 (sA st) ++ le_bytes 4 (sB st) ++ le_bytes 4 (sC st) ++ le_bytes 4 (sD st))%list.

Definition hex_byte (b : Z) : string :=
  String (hex_digit (Z.to_N (Z.shiftr b 4)))
    (String (hex_digit (Z.to_N (Z.land b 15))) EmptyString).

Fixpoint hex (bs : list Z) : string :=
  match bs with
  | [] => EmptyString
  | b :: bs' => hex_byte b ++ hex bs'
  end.

Fixpoint bytes_of_string (s : string) : list Z :=
  match s with
  | EmptyString => []
  | String c s' => Z.of_N (N_of_ascii c) :: bytes_of_string s'
  end.

(** [crypto.createHash('md5').update(str).digest('hex')] *)
Definition md5_hex (str : string) : string := hex (digest (bytes_of_string str)).

End MD5.

(** [static generateKey(input)]: [hash.update] rejects [undefined]. *)
Definition generateKey (input : js_value) : result string :=
  let str := match input with
             | VStr s => Some s
             | _ => JSON_stringify input
             end in
  match str with
  | Some s => Ok (MD5.md5_hex s)
  | None =>
      Throw (TypeError
        ("The " ++ String dquote "data" ++ String dquote
           " argument must be of type string or an instance of Buffer, TypedArray, or DataView. Received undefined"))
  end.


(** ** The Express objects the middleware touches *)

Record request : Type := {
  method : string;
  originalUrl : string
}.

(** The variables captured by the functions the middleware installs as
    [res.send] and [res.json]. *)
Record interceptor : Type := {
  i_cacheKey : string;
  i_ttl : Z;
  i_skipSuccessful : bool
}.

(** A call that reached Express's own [res.send] or [res.json]. *)
Inductive forwarded : Type :=
| ToSend (data : js_value)
| ToJson (data : js_value).

Record response : Type := {
  statusCode : Z;
  headers : gmap string string;
  intercept : option interceptor;   (* [None]: [res.send] and [res.json] are Express's own *)
  out : list forwarded              (* oldest first *)
}.

(** The cache object shared by the middleware and the routes, the response
    of the request at hand, and what was written with [console.error]. *)
Record world : Type := {
  cache : SQLiteCache;
  res : response;
  console : list string
}.

Definition message_of (e : js_error) : string :=
  match e with
  | Error m => m
  | TypeError m => m
  end.

Definition with_cache (w : world) (c : SQLiteCache) : world :=
  {| cache := c; res := res w; console := console w |}.

Definition with_res (w : world) (r : response) : world :=
  {| cache := cache w; res := r; console := console w |}.

Definition console_error (line : string) (w : world) : world :=
  {| cache := cache w; res := res w; console := (console w ++ [line])%list |}.

(** [res.set(name, value)] *)
Definition res_set (name val : string) (w : world) : world :=
  with_res w {| statusCode := statusCode (res w);
                headers := <[name := val]> (headers (res w));
                intercept := intercept (res w);
                out := out (res w) |}.

(** [res.status(code)] *)
Definition res_status (code : Z) (w : world) : world :=
  with_res w {| statusCode := code; headers := headers (res w);
                intercept := intercept (res w); out := out (res w) |}.

(** [res.send = ...; res.json = ...] *)
Definition install (i : option interceptor) (w : world) : world :=
  with_res w {| statusCode := statusCode (res w); headers := headers (res w);
                intercept := i; out := out (res w) |}.

(** [originalSend.call(this, data)], [originalJson.call(this, data)] *)
Definition forward (f : forwarded) (w : world) : world :=
  with_res w {| statusCode := statusCode (res w); headers := headers (res w);
                intercept := intercept (res w); out := (out (res w) ++ [f])%list |}.

(** The body shared by the two replacement functions: the originals are
    put back, a response with a 2xx status is stored. [parsed] is the value
    to store, or [None] when [JSON.parse(data)] threw. *)
Definition capture (now : Z) (i : interceptor) (parsed : option js_value) (w : world) : world :=
  let w1 := install None w in
  if negb (i_skipSuccessful i)
     && (statusCode (res w1) >=? 200) && (statusCode (res w1) <? 300)
  then
    match parsed with
    | None => console_error ("Failed to cache response: " ++ syntax_error) w1
    | Some parsedData =>
        match set now (i_cacheKey i) parsedData (Some (i_ttl i)) (cache w1) with
        | (Ok _, c') =>
            res_set "X-Cache-Key" (i_cacheKey i)
              (res_set "X-Cache-Hit" "false" (with_cache w1 c'))
        | (Throw e, c') =>
            console_error ("Failed to cache response: " ++ message_of e) (with_cache w1 c')
        end
    end
  else w1.

(** [res.send(data)] *)
Definition res_send (now : Z) (data : js_value) (w : world) : world :=
  match intercept (res w) with
  | None => forward (ToSend data) w
  | Some i =>
      let parsed := match data with
                    | VStr text => JSON_parse text
                    | _ => Some data
                    end in
      forward (ToSend data) (capture now i parsed w)
  end.

(** [res.json(data)] *)
Definition res_json (now : Z) (data : js_value) (w : world) : world :=
  match intercept (res w) with
  | None => forward (ToJson data) w
  | Some i => forward (ToJson data) (capture now i (Some data) w)
  end.

(** ** createCacheMiddleware *)

Record middleware_options : Type := {
  keyGenerator : option (request -> result string);
  ttl : option Z;
  condition : option (request -> result bool);
  skipSuccessful : option bool
}.

Definition default_keyGenerator (req : request) : result string :=
  Ok (method req ++ ":" ++ originalUrl req).

(** What calling the middleware function does. *)
Inductive outcome : Type :=
| Next (w : world)               (* [next()] was called *)
| Responded (w : world)          (* the cached value was sent, [next] was not called *)
| Thrown (e : js_error) (w : world).   (* an exception left the middleware *)

(** The destructuring [{ keyGenerator = ..., ttl = 300, condition = ...,
    skipSuccessful = false } = options]. *)
Definition keyGenerator_of (options : middleware_options) : request -> result string :=
  match keyGenerator options with
  | Some f => f
  | None => default_keyGenerator
  end.

Definition ttl_of (options : middleware_options) : Z :=
  match ttl options with
  | Some n => n
  | None => 300
  end.

Definition condition_of (options : middleware_options) : request -> result bool :=
  match condition options with
  | Some f => f
  | None => λ _, Ok true
  end.

Definition skipSuccessful_of (options : middleware_options) : bool :=
  match skipSuccessful options with
  | Some b => b
  | None => false
  end.

Definition createCacheMiddleware (options : middleware_options)
  (now : Z) (req : request) (w : world) : outcome :=
  match condition_of options req with
  | Throw e => Thrown e w
  | Ok eligible =>
      if negb eligible || negb (String.eqb (method req) "GET") then Next w
      else
        match keyGenerator_of options req with
        | Throw e => Thrown e w
        | Ok cacheKey =>
            match get now cacheKey (cache w) with
            | (Ok cached, c') =>
                let w' := with_cache w c' in
                if truthy cached then
                  Responded
                    (res_json now cached
                       (res_set "X-Cache-Key" cacheKey (res_set "X-Cache-Hit" "true" w')))
                else
                  Next (install (Some {| i_cacheKey := cacheKey;
                                         i_ttl := ttl_of options;
                                         i_skipSuccessful := skipSuccessful_of options |}) w')
            | (Throw e, c') =>
                Next (console_error ("Cache middleware error: " ++ message_of e)
                        (with_cache w c'))
            end
        end
  end.

(** ** A route behind the middleware

    The unit of work is what the route handler does with the response. *)
Inductive res_call : Type :=
| Status (code : Z)
| Send (data : js_value)
| Json (data : js_value).

Definition run_call (now : Z) (w : world) (a : res_call) : world :=
  match a with
  | Status code => res_status code w
  | Send data => res_send now data w
  | Json data => res_json now data w
  end.

Record served : Type := {
  invoked : bool;                 (* whether the route handler ran *)
  raised : option js_error;       (* the error handed to Express, if any *)
  final : world
}.

(** [app.get(path, middleware, handler)] on one request: the handler runs
    when the middleware calls [next()], at time [later]. *)
Definition serve (options : middleware_options) (handler : request -> list res_call)
  (now later : Z) (req : request) (w : world) : served :=
  match createCacheMiddleware options now req w with
  | Next w' =>
      {| invoked := true; raised := None;
         final := fold_left (run_call later) (handler req) w' |}
  | Responded w' => {| invoked := false; raised := None; final := w' |}
  | Thrown e w' => {| invoked := false; raised := Some e; final := w' |}
  end.

(** ** The cache management routes of the application

    A path is given by its non-empty segments.  A pattern segment is a
    word, compared without regard to case as Express does, or a parameter
    such as [:key], which matches any segment. *)

Inductive segment : Type :=
| Lit (word : string)
| Param.

Inductive route_id : Type :=
| UsersList | UserById | Posts | Expensive
| CacheStats | CacheEntries | CacheGet | CacheSet | CacheDelete | CacheClear | CacheCleanup
| Health | Index.

(** The routes in the order in which [app.get], [app.post] and
    [app.delete] register them. *)
Definition routes : list (string * list segment * route_id) :=
  [ ("GET", [Lit "api"; Lit "users"], UsersList);
    ("GET", [Lit "api"; Lit "users"; Param], UserById);
    ("GET", [Lit "api"; Lit "posts"], Posts);
    ("GET", [Lit "api"; Lit "expensive"], Expensive);
    ("GET", [Lit "api"; Lit "cache"; Lit "stats"], CacheStats);
    ("GET", [Lit "api"; Lit "cache"; Lit "entries"], CacheEntries);
    ("GET", [Lit "api"; Lit "cache"; Param], CacheGet);
    ("POST", [Lit "api"; Lit "cache"; Param], CacheSet);
    ("DELETE", [Lit "api"; Lit "cache"; Param], CacheDelete);
    ("DELETE", [Lit "api"; Lit "cache"], CacheClear);
    ("POST", [Lit "api"; Lit "cache"; Lit "cleanup"], CacheCleanup);
    ("GET", [Lit "health"], Health);
    ("GET", [], Index) ].

Definition lower_char (c : ascii) : ascii :=
  let n := N_of_ascii c in
  if ((65 <=? n) && (n <=? 90))%N then ascii_of_N (n + 32) else c.

Fixpoint lower (s : string) : string :=
  match s with
  | EmptyString => EmptyString
  | String c s' => String (lower_char c) (lower s')
  end.

(** The values of the parameters when the path matches the pattern. *)
Fixpoint match_path (pattern : list segment) (path : list string) : option (list string) :=
  match pattern, path with
  | [], [] => Some []
  | Lit word :: pattern', seg :: path' =>
      if String.eqb (lower word) (lower seg) then match_path pattern' path' else None
  | Param :: pattern', seg :: path' =>
      match match_path pattern' path' with
      | Some params => Some (seg :: params)
      | None => None
      end
  | _, _ => None
  end.

(** A route registered for GET also handles HEAD requests. *)
Definition handles_method (m method : string) : bool :=
  String.eqb m method || (String.eqb method "HEAD" && String.eqb m "GET").

(** The first registered route of the method that matches the path. *)
Fixpoint first_match (rs : list (string * list segment * route_id)) (method : string)
    (path : list string) : option (route_id * list string) :=
  match rs with
  | [] => None
  | (m, pattern, id) :: rs' =>
      if handles_method m method then
        match match_path pattern path with
        | Some params => Some (id, params)
        | None => first_match rs' method path
        end
      else first_match rs' method path
  end.

Definition dispatch (method : string) (path : list string) : option (route_id * list string) :=
  first_match routes method path.

(** [res.status(code).json({ error: message })] *)
Definition respond_error (now code : Z) (message : string) (w : world) : world :=
  res_json now (VObj [("error", VStr message)]) (res_status code w).

(** [app.get('/api/cache/:key', ...)] *)
Definition cache_get_route (now : Z) (key : string) (w : world) : world :=
  match get now key (cache w) with
  | (Ok VNull, c') => respond_error now 404 "Cache key not found" (with_cache w c')
  | (Ok v, c') =>
      res_json now
        (VObj [("success", VBool true);
               ("data", VObj [("key", VStr key); ("value", v); ("exists", VBool true)])])
        (with_cache w c')
  | (Throw e, c') => respond_error now 500 (message_of e) (with_cache w c')
  end.

(** [app.post('/api/cache/:key', ...)]; [value] and [ttl] are the
    properties of the JSON body, [VUndefined] and [None] when it has none;
    a ttl that is not a number is outside the model. *)
Definition cache_set_route (now : Z) (key : string) (v : js_value) (ttl : option Z)
    (w : world) : world :=
  match v with
  | VUndefined => respond_error now 400 "Value is required" w
  | _ =>
      match set now key v ttl (cache w) with
      | (Ok _, c') =>
          res_json now
            (VObj [("success", VBool true);
                   ("message", VStr "Cache entry set successfully");
                   ("key", VStr key)])
            (with_cache w c')
      | (Throw e, c') => respond_error now 500 (message_of e) (with_cache w c')
      end
  end.

(** [app.delete('/api/cache/:key', ...)] *)
Definition cache_delete_route (now : Z) (key : string) (w : world) : world :=
  match delete_ key (cache w) with
  | (Ok deleted, c') =>
      res_json now
        (VObj [("success", VBool true); ("deleted", VBool deleted); ("key", VStr key)])
        (with_cache w c')
  | (Throw e, c') => respond_error now 500 (message_of e) (with_cache w c')
  end.

(** [app.delete('/api/cache', ...)] *)
Definition cache_clear_route (now : Z) (w : world) : world :=
  match clear (cache w) with
  | (Ok _, c') =>
      res_json now
        (VObj [("success", VBool true); ("message", VStr "All cache entries cleared")])
        (with_cache w c')
  | (Throw e, c') => respond_error now 500 (message_of e) (with_cache w c')
  end.

(** [app.post('/api/cache/cleanup', ...)] *)
Definition cache_cleanup_route (now : Z) (w : world) : world :=
  match cleanup now (cache w) with
  | (Ok cleaned, c') =>
      res_json now
        (VObj [("success", VBool true);
               ("message", VStr ("Removed " ++ number_to_string cleaned ++ " expired entries"))])
        (with_cache w c')
  | (Throw e, c') => respond_error now 500 (message_of e) (with_cache w c')
  end.

(** A request to the management routes: method, path, and the [value]
    and [ttl] of its JSON body. *)
Record api_request : Type := {
  a_method : string;
  a_path : list string;
  a_value : js_value;
  a_ttl : option Z
}.

(** What the application does with a request that is dispatched to one of
    the five routes above; [None] for a request that no route matches or
    that goes to another route. *)
Definition handle (now : Z) (rq : api_request) (w : world) : option world :=
  match dispatch (a_method rq) (a_path rq) with
  | Some (CacheGet, [key]) => Some (cache_get_route now key w)
  | Some (CacheSet, [key]) => Some (cache_set_route now key (a_value rq) (a_ttl rq) w)
  | Some (CacheDelete, [key]) => Some (cache_delete_route now key w)
  | Some (CacheClear, []) => Some (cache_clear_route now w)
  | Some (CacheCleanup, []) => Some (cache_cleanup_route now w)
  | _ => None
  end.

(** [POST /api/cache/<key>] with the body [{ value, ttl }], and
    [GET /api/cache/<key>]. *)
Definition api_post (key : string) (v : js_value) (ttl : option Z) : api_request :=
  {| a_method := "POST"; a_path := ["api"; "cache"; key]; a_value := v; a_ttl := ttl |}.

Definition api_get (key : string) : api_request :=
  {| a_method := "GET"; a_path := ["api"; "cache"; key]; a_value := VUndefined; a_ttl := None |}.

(** ** Calls on an engine, for statements about every operation *)

Inductive call : Type :=
| CallSet (key : string) (v : js_value) (ttl : option Z)
| CallGet (key : string)
| CallDelete (key : string)
| CallHas (key : string)
| CallClear
| CallStats
| CallGetAllEntries (limit : option Z)
| CallCleanup.

(** The engine after a call at time [now]. *)
Definition run (now : Z) (op : call) (c : SQLiteCache) : SQLiteCache :=
  match op with
  | CallSet key v ttl => snd (set now key v ttl c)
  | CallGet key => snd (get now key c)
  | CallDelete key => snd (delete_ key c)
  | CallHas key => snd (has now key c)
  | CallClear => snd (clear c)
  | CallStats => snd (stats now c)
  | CallGetAllEntries limit => snd (getAllEntries now limit c)
  | CallCleanup => snd (cleanup now c)
  end.

(** Whether a call returned or threw. *)
Definition throws {A : Type} (r : result A) : option js_error :=
  match r with
  | Ok _ => None
  | Throw e => Some e
  end.

Definition outcome_of (now : Z) (op : call) (c : SQLiteCache) : option js_error :=
  match op with
  | CallSet key v ttl => throws (fst (set now key v ttl c))
  | CallGet key => throws (fst (get now key c))
  | CallDelete key => throws (fst (delete_ key c))
  | CallHas key => throws (fst (has now key c))
  | CallClear => throws (fst (clear c))
  | CallStats => throws (fst (stats now c))
  | CallGetAllEntries limit => throws (fst (getAllEntries now limit c))
  | CallCleanup => throws (fst (cleanup now c))
  end.

(** The rows an engine holds, none without a database. *)
Definition rows (c : SQLiteCache) : table :=
  match db c with
  | Some t => t
  | None => ∅
  end.

(** An engine whose database no [init] has opened since it was made or
    closed. *)
Inductive not_ready : SQLiteCache -> Prop :=
| nr_new path options : not_ready (constructor path options)
| nr_closed c : not_ready (close c)
| nr_open_failed message c : not_ready c -> not_ready (snd (init (OpenFails message) c))
| nr_call now op c : not_ready c -> not_ready (run now op c).

(** An engine that was initialised and not closed since, with its table. *)
Definition ready (c : SQLiteCache) (t : table) : Prop :=
  db c = Some t /\ statements c = Prepared.

(** ** Deep equality of values: the same structure, the properties of an
    object in any order. *)

Fixpoint obj_get (k : string) (o : list (string * js_value)) : option js_value :=
  match o with
  | [] => None
  | (k', v) :: o' => if String.eqb k k' then Some v else obj_get k o'
  end.

Fixpoint deep_equal (a b : js_value) {struct a} : bool :=
  match a, b with
  | VUndefined, VUndefined => true
  | VNull, VNull => true
  | VBool x, VBool y => Bool.eqb x y
  | VNum x, VNum y => x =? y
  | VNaN, VNaN => true
  | VStr x, VStr y => String.eqb x y
  | VArr xs, VArr ys =>
      (fix all2 (l : list js_value) (r : list js_value) : bool :=
         match l, r with
         | [], [] => true
         | x :: l', y :: r' => deep_equal x y && all2 l' r'
         | _, _ => false
         end) xs ys
  | VObj xs, VObj ys =>
      (length xs =? length ys)%nat &&
      (fix all (l : list (string * js_value)) : bool :=
         match l with
         | [] => true
         | (k, x) :: l' =>
             match obj_get k ys with
             | Some y => deep_equal x y
             | None => false
             end && all l'
         end) xs
  | _, _ => false
  end.

(** Values that JSON text represents exactly: no [undefined] and no NaN
    anywhere, the keys of an object distinct. *)
Fixpoint json_exact (v : js_value) : Prop :=
  match v with
  | VUndefined | VNaN => False
  | VNull | VBool _ | VNum _ | VStr _ => True
  | VArr elems =>
      (fix each (l : list js_value) : Prop :=
         match l with
         | [] => True
         | e :: l' => json_exact e /\ each l'
         end) elems
  | VObj members =>
      NoDup (map fst members) /\
      (fix each (l : list (string * js_value)) : Prop :=
         match l with
         | [] => True
         | (_, e) :: l' => json_exact e /\ each l'
         end) members
  end.

(** The text [generateKey] hashes. *)
Definition key_text (input : js_value) : option string :=
  match input with
  | VStr s => Some s
  | _ => JSON_stringify input
  end.

(** ** Engines, requests and values used in examples *)

Definition no_options : cache_options :=
  {| opt_defaultTTL := None; opt_cleanupInterval := None |}.

(** An engine over an in-memory database, initialised. *)
Definition fresh_engine : SQLiteCache :=
  snd (init (Opened ∅) (constructor None no_options)).

(** A database file whose three rows carry very large hit counts. *)
Definition busy_row (h : Z) : row :=
  {| value := "1"; expires_at := 10; created_at := 0; accessed_at := 0; hit_count := h |}.

Definition busy_engine : SQLiteCache :=
  snd (init (Opened (<["a" := busy_row 35184372088832]>
                       (<["b" := busy_row 35184372088832]>
                          (<["c" := busy_row 35184372088833]> ∅))))
         (constructor None no_options)).

Definition default_options : middleware_options :=
  {| keyGenerator := None; ttl := None; condition := None; skipSuccessful := None |}.

Definition new_response : response :=
  {| statusCode := 200; headers := ∅; intercept := None; out := [] |}.

(** A request that is about to be handled, with the engine [c]. *)
Definition world_of (c : SQLiteCache) : world :=
  {| cache := c; res := new_response; console := [] |}.

Definition get_users : request := {| method := "GET"; originalUrl := "/api/users" |}.

(** [keyGenerator: (req) => req.user.id], on a request without [user]. *)
Definition user_keyGenerator (req : request) : result string :=
  Throw (TypeError "Cannot read properties of undefined (reading 'id')").

Definition per_user_options : middleware_options :=
  {| keyGenerator := Some user_keyGenerator; ttl := None; condition := None;
     skipSuccessful := None |}.

(** A route handler that answers with a JSON body. *)
Definition users_handler (req : request) : list res_call :=
  [Json (VObj [("success", VBool true)])].

(** The same object written with its keys in the two orders. *)
Definition query_ab : js_value := VObj [("a", VNum 1); ("b", VNum 2)].
Definition query_ba : js_value := VObj [("b", VNum 2); ("a", VNum 1)].

(** ** Notions used to state the round trip through JSON text *)

(** Text after which a number token ends: nothing, or a character that is
    not a digit and starts neither a fraction nor an exponent. *)
Definition ends_number (rest : string) : bool :=
  match rest with
  | EmptyString => true
  | String c _ =>
      match digit_of c with
      | Some _ => false
      | None => negb (starts_fraction rest)
      end
  end.

(** A character that is neither white space nor a closing bracket. *)
Definition starts_value (c : ascii) : bool :=
  negb (is_ws c) && negb (Ascii.eqb c "]") && negb (Ascii.eqb c "}").

(** The first character of a number token. *)
Definition starts_number (c : ascii) : bool :=
  match digit_of c with
  | Some _ => true
  | None => Ascii.eqb c "-"
  end.

(** The text of an array element and the texts of the properties of an
    object, as [JSON.stringify] writes them. *)
Definition item_text (e : js_value) : string :=
  match JSON_stringify e with
  | Some t => t
  | None => "null"
  end.

Fixpoint member_texts (m : list (string * js_value)) : list string :=
  match m with
  | [] => []
  | (k, e) :: m' =>
      match JSON_stringify e with
      | Some t => (quote k ++ ":" ++ t) :: member_texts m'
      | None => member_texts m'
      end
  end.

(** The text of [v] is read back as [v], whatever follows the text. *)
Definition reads_back (v : js_value) : Prop :=
  forall s, JSON_stringify v = Some s ->
  forall fuel rest, (String.length s < fuel)%nat -> ends_number rest = true ->
  parse_value fuel (s ++ rest) = Some (v, rest).

(** Every row has been hit at least once. *)
Definition hits_positive (t : table) : Prop :=
  forall key r, t !! key = Some r -> 1 <= hit_count r.

(** An engine opened on a database that holds one row, read so far 7
    times, which expires at time 10. *)
Definition stored_engine : SQLiteCache :=
  snd (init (Opened {["k" := busy_row 7]}) (constructor None no_options)).

(** An engine opened on a database one of whose rows holds text that is
    not JSON. *)
Definition corrupt_engine : SQLiteCache :=
  snd (init (Opened {["bad" := {| value := "{oops"; expires_at := 10; created_at := 0;
                                   accessed_at := 0; hit_count := 1 |}]})
         (constructor None no_options)).

(** What reaches Express of the calls a handler makes on the response. *)
Fixpoint forwarded_of (calls : list res_call) : list forwarded :=
  match calls with
  | [] => []
  | Status _ :: calls' => forwarded_of calls'
  | Send data :: calls' => ToSend data :: forwarded_of calls'
  | Json data :: calls' => ToJson data :: forwarded_of calls'
  end.

(** ** Notions used to state properties of sequences of calls *)

(** The engine after a sequence of calls, each at its own time. *)
Definition run_all (calls : list (Z * call)) (c : SQLiteCache) : SQLiteCache :=
  fold_left (λ acc tc, run tc.1 tc.2 acc) calls c.

(** The snapshot [getAllEntries] makes of a row whose text reads as [v]. *)
Definition entry_of (k : string) (r : row) (v : js_value) : entry :=
  {| e_key := k; e_value := v;
     e_expires_at := expires_at r * 1000;
     e_created_at := created_at r * 1000;
     e_accessed_at := accessed_at r * 1000;
     e_hit_count := hit_count r |}.

(* ===================================================================== *)
(** * Part II: properties                                                 *)
(* ===================================================================== *)

(** String concatenation unfolds on a literal prefix. *)
#[local] Arguments String.append !s1 s2 / : simpl nomatch.

(** ** Engine state *)

Lemma not_ready_db c : not_ready c -> db c = None.
Proof.
  induction 1 as [p o | c | msg c _ IH | now op c _ IH].
  - reflexivity.
  - unfold close, with_timer. cbn [db]. destruct (db c); reflexivity.
  - exact IH.
  - destruct op; simpl; unfold set, get, delete_, has, clear, stats, getAllEntries, cleanup;
      rewrite IH; exact IH.
Qed.

Lemma fresh_engine_ready : ready fresh_engine ∅.
Proof. split; reflexivity. Qed.

(** C1, as stated, fails: on an engine that was never initialised, and on
    one that was closed, [cleanup] returns 0 instead of failing with the
    not-initialised error. *)
Lemma cleanup_not_ready_returns_zero :
  not_ready (constructor None no_options) /\
  fst (cleanup 0 (constructor None no_options)) = Ok 0 /\
  fst (cleanup 0 (close fresh_engine)) = Ok 0 /\
  outcome_of 0 CallCleanup (close fresh_engine) <> Some not_initialized.
Proof.
  split; [apply nr_new |].
  repeat split; discriminate.
Qed.

(** C1 (amended): before any [init] has opened the database and at any
    point after [close], each of set, get, has, delete, clear, stats and
    getAllEntries throws the error 'Cache not initialized' and changes
    nothing; cleanup returns 0. *)
Theorem not_ready_calls (c : SQLiteCache) (now : Z) (key : string) (v : js_value)
    (ttl limit : option Z) :
  not_ready c ->
  set now key v ttl c = (Throw not_initialized, c) /\
  get now key c = (Throw not_initialized, c) /\
  has now key c = (Throw not_initialized, c) /\
  delete_ key c = (Throw not_initialized, c) /\
  clear c = (Throw not_initialized, c) /\
  stats now c = (Throw not_initialized, c) /\
  getAllEntries now limit c = (Throw not_initialized, c) /\
  cleanup now c = (Ok 0, c).
Proof.
  intros H. apply not_ready_db in H.
  unfold set, get, has, delete_, clear, stats, getAllEntries, cleanup.
  rewrite H. repeat split.
Qed.

Lemma not_ready_calls_witness :
  set 7 "k" VNull None (close fresh_engine) = (Throw not_initialized, close fresh_engine) /\
  cleanup 7 (close fresh_engine) = (Ok 0, close fresh_engine).
Proof.
  pose proof (not_ready_calls (close fresh_engine) 7 "k" VNull None None
                (nr_closed fresh_engine)) as H.
  split; [apply H | apply H].
Defined.

(** An [init] that opened the database and then failed leaves the handle
    in place: the calls then fail inside their [try], with another error. *)
Lemma schema_failure_keeps_handle :
  fst (set 0 "k" VNull None
         (snd (init (SchemaFails "file is not a database") (constructor None no_options))))
  = Throw (Error "Failed to set cache: Cannot read properties of undefined (reading 'run')").
Proof. reflexivity. Qed.

(** ** Expiry computed by [set] *)

Lemma set_ready c t now key v ttl s :
  ready c t -> JSON_stringify v = Some s ->
  set now key v ttl c =
    (Ok true, with_db c (Some (stmt_set now key s (now + or_default ttl (defaultTTL c)) t))).
Proof. intros [Hdb Hst] Hs. unfold set. rewrite Hdb, Hst, Hs. reflexivity. Qed.

Lemma set_ok_inv c now key v ttl :
  fst (set now key v ttl c) = Ok true ->
  exists t s, ready c t /\ JSON_stringify v = Some s.
Proof.
  unfold set, ready. destruct (db c) as [t|]; [| discriminate].
  destruct (statements c); try discriminate.
  destruct (JSON_stringify v) as [s|]; [| discriminate]. eauto.
Qed.




(** ** What a call leaves alone *)

Lemma rows_with_db c t : rows (with_db c (Some t)) = t.
Proof. reflexivity. Qed.

(** A row found after a call that is not a [set] of its key was there
    before, unchanged or touched by a [get]. *)
Lemma run_frame c now op key r' :
  (forall v ttl, op <> CallSet key v ttl) ->
  rows (run now op c) !! key = Some r' ->
  exists r, rows c !! key = Some r /\ (r' = r \/ r' = touch now r).
Proof.
  intros Hop.
  assert (rows c !! key = Some r' ->
          exists r, rows c !! key = Some r /\ (r' = r \/ r' = touch now r)) as Hsame
    by eauto.
  destruct op as [k v ttl | k | k | k | | | limit |]; simpl;
    unfold set, get, delete_, has, clear, stats, getAllEntries, cleanup;
    (destruct (db c) as [t|] eqn:Hdb; [| exact Hsame]);
    (destruct (statements c); try exact Hsame); cbn [unusable].
  - assert (k <> key) by (intros ->; eapply Hop; reflexivity).
    destruct (JSON_stringify v); [| exact Hsame].
    simpl. rewrite rows_with_db. unfold stmt_set. rewrite lookup_insert_ne by done.
    unfold rows. rewrite Hdb. eauto.
  - destruct (stmt_get now k t) as [r0|]; [| exact Hsame].
    assert (rows (with_db c (Some (stmt_updateAccess now k t))) !! key = Some r' ->
            exists r, rows c !! key = Some r /\ (r' = r \/ r' = touch now r)) as Hgo.
    { rewrite rows_with_db. unfold stmt_updateAccess, rows. rewrite Hdb, lookup_alter.
      case_decide as Hk.
      - subst k. destruct (t !! key) as [r|]; simpl; [| discriminate].
        intros [= <-]. eauto.
      - eauto. }
    destruct (JSON_parse (value r0)); exact Hgo.
  - simpl. rewrite rows_with_db, lookup_delete. unfold rows. rewrite Hdb.
    case_decide; [discriminate | eauto].
  - simpl. rewrite rows_with_db. unfold stmt_clear. rewrite lookup_empty. discriminate.
  - destruct (map_rows _); exact Hsame.
  - simpl. rewrite rows_with_db. intros H. apply map_lookup_filter_Some in H as [H _].
    unfold rows. rewrite Hdb. eauto.
Qed.

(** ** created_at *)

(** C5, as stated, fails: a [set] that overwrites a key replaces the row,
    and [created_at] becomes the time of the overwrite. *)
Lemma overwrite_resets_created_at :
  created_at <$> (rows (snd (set 100 "k" (VNum 1) None fresh_engine)) !! "k") = Some 100 /\
  created_at <$>
    (rows (snd (set 200 "k" (VNum 2) None (snd (set 100 "k" (VNum 1) None fresh_engine))))
       !! "k") = Some 200.
Proof. split; vm_compute; reflexivity. Qed.

(** C5 (amended): [created_at] is the time of the latest successful [set]
    of the key, whether it inserted the key or overwrote it; no other call
    changes the [created_at] of a row it leaves in the table. *)
Theorem created_at_set_only (c : SQLiteCache) (now : Z) :
  (forall key v ttl, fst (set now key v ttl c) = Ok true ->
     exists r, rows (snd (set now key v ttl c)) !! key = Some r /\ created_at r = now) /\
  (forall op key r', (forall v ttl, op <> CallSet key v ttl) ->
     rows (run now op c) !! key = Some r' ->
     exists r, rows c !! key = Some r /\ created_at r' = created_at r).
Proof.
  split.
  - intros key v ttl Hok. destruct (set_ok_inv _ _ _ _ _ Hok) as (t & s & Hdb & Hs).
    rewrite (set_ready _ _ _ _ _ ttl _ Hdb Hs). simpl. rewrite rows_with_db.
    eexists. split; [apply lookup_insert_eq | reflexivity].
  - intros op key r' Hop Hr'.
    destruct (run_frame _ _ _ _ _ Hop Hr') as (r & Hr & [-> | ->]); eauto.
Qed.

Lemma created_at_set_only_witness :
  exists r,
    rows (run 300 (CallGet "k") (snd (set 100 "k" (VNum 1) None fresh_engine))) !! "k" = Some r /\
    created_at r = 100.
Proof.
  pose proof (created_at_set_only (snd (set 100 "k" (VNum 1) None fresh_engine)) 300)
    as [_ H].
  destruct (H (CallGet "k") "k"
              {| value := "1"; expires_at := 3700; created_at := 100;
                 accessed_at := 300; hit_count := 2 |}) as (r & Hr & Hc).
  - discriminate.
  - vm_compute. reflexivity.
  - eexists. split; [vm_compute; reflexivity | reflexivity].
Defined.

(** ** hit_count *)

Lemma get_hit c t now key r v :
  ready c t -> t !! key = Some r -> is_active now r = true ->
  JSON_parse (value r) = Some v ->
  get now key c = (Ok v, with_db c (Some (stmt_updateAccess now key t))).
Proof.
  intros [Hdb Hst] Hr Ha Hv. unfold get, stmt_get. rewrite Hdb, Hst, Hr, Ha, Hv.
  reflexivity.
Qed.

(** C7: [hit_count] is 1 after a [set] of the key, also one that
    overwrites; a [get] that returns the value of an active entry adds
    exactly 1; no call other than a [set] of the key lowers it. *)
Theorem hit_count_accounting (c : SQLiteCache) (now : Z) :
  (forall key v ttl, fst (set now key v ttl c) = Ok true ->
     exists r, rows (snd (set now key v ttl c)) !! key = Some r /\ hit_count r = 1) /\
  (forall key r v, rows c !! key = Some r -> is_active now r = true ->
     fst (get now key c) = Ok v ->
     exists r', rows (snd (get now key c)) !! key = Some r' /\
                hit_count r' = hit_count r + 1) /\
  (forall op key r', (forall v ttl, op <> CallSet key v ttl) ->
     rows (run now op c) !! key = Some r' ->
     exists r, rows c !! key = Some r /\ hit_count r <= hit_count r').
Proof.
  split; [| split].
  - intros key v ttl Hok. destruct (set_ok_inv _ _ _ _ _ Hok) as (t & s & Hdb & Hs).
    rewrite (set_ready _ _ _ _ _ ttl _ Hdb Hs). simpl. rewrite rows_with_db.
    eexists. split; [apply lookup_insert_eq | reflexivity].
  - intros key r v Hr Ha Hget. unfold rows in Hr.
    destruct (db c) as [t|] eqn:Hdb; [| rewrite lookup_empty in Hr; discriminate].
    unfold get, stmt_get in *. rewrite Hdb in *.
    destruct (statements c); try discriminate Hget. cbn [unusable] in *.
    rewrite Hr, Ha in *.
    exists (touch now r). split; [| reflexivity].
    destruct (JSON_parse (value r)); simpl; rewrite rows_with_db;
      unfold stmt_updateAccess; rewrite lookup_alter, decide_True, Hr by done; reflexivity.
  - intros op key r' Hop Hr'.
    destruct (run_frame _ _ _ _ _ Hop Hr') as (r & Hr & [-> | ->]);
      exists r; (split; [exact Hr | simpl; lia]).
Qed.

Lemma hit_count_accounting_witness :
  exists r',
    rows (snd (get 150 "k" (snd (set 100 "k" (VNum 1) None fresh_engine)))) !! "k" = Some r' /\
    hit_count r' = 2.
Proof.
  pose proof (hit_count_accounting (snd (set 100 "k" (VNum 1) None fresh_engine)) 150)
    as (_ & H & _).
  destruct (H "k" {| value := "1"; expires_at := 3700; created_at := 100;
                     accessed_at := 100; hit_count := 1 |} (VNum 1))
    as (r' & Hr' & Hh); [vm_compute; reflexivity | reflexivity | vm_compute; reflexivity |].
  exists r'. split; [exact Hr' | exact Hh].
Defined.

(** Hit counts stay positive under every call. *)
Lemma run_hits_positive (c : SQLiteCache) (now : Z) (op : call) :
  hits_positive (rows c) -> hits_positive (rows (run now op c)).
Proof.
  intros Hpos key r' Hr'.
  assert ((forall v ttl, op <> CallSet key v ttl) \/ exists v ttl, op = CallSet key v ttl)
    as [Hop | (v & ttl & ->)].
  { destruct op as [k v ttl | | | | | | |]; try (left; discriminate).
    destruct (decide (k = key)) as [-> | Hne]; [right; eauto | left; congruence]. }
  - destruct (run_frame _ _ _ _ _ Hop Hr') as (r & Hr & [-> | ->]).
    + eapply Hpos; exact Hr.
    + apply Hpos in Hr. simpl. lia.
  - simpl in Hr'.
    destruct (fst (set now key v ttl c)) as [[] | e] eqn:Hset.
    + destruct (set_ok_inv _ _ _ _ _ Hset) as (t & s & Hready & Hs).
      rewrite (set_ready _ _ _ _ _ ttl _ Hready Hs) in Hr'. cbn [snd] in Hr'.
      rewrite rows_with_db in Hr'. unfold stmt_set in Hr'.
      rewrite lookup_insert_eq in Hr'. injection Hr' as <-. simpl. lia.
    + exfalso. revert Hset. unfold set. destruct (db c); [| discriminate].
      destruct (statements c); try discriminate. cbn [unusable].
      destruct (JSON_stringify v); discriminate.
    + assert (snd (set now key v ttl c) = c) as Hc.
      { revert Hset. unfold set. destruct (db c); [| reflexivity].
        destruct (statements c); try reflexivity. cbn [unusable].
        destruct (JSON_stringify v); [discriminate | reflexivity]. }
      rewrite Hc in Hr'. eapply Hpos; exact Hr'.
Qed.

Lemma sum_hits_nonneg (t : table) : hits_positive t -> 0 <= sum_rows hit_count t.
Proof.
  unfold sum_rows.
  apply (map_fold_weak_ind (λ acc m, hits_positive m -> 0 <= acc)).
  - intros _. lia.
  - intros key r m acc Hnone IH Hpos.
    assert (1 <= hit_count r) by (apply (Hpos key); apply lookup_insert_eq).
    assert (0 <= acc).
    { apply IH. intros k r0 Hr0. apply (Hpos k).
      rewrite lookup_insert_ne; [exact Hr0 | congruence]. }
    lia.
Qed.

(** ** cleanup *)

Lemma size_filter_split (p : row -> bool) (t : table) :
  (size (filter (λ kr, p kr.2 = true) t) + size (filter (λ kr, p kr.2 = false) t))%nat
  = size t.
Proof.
  induction t as [| k r t Hk IH] using map_ind.
  - rewrite !map_filter_empty, map_size_empty. reflexivity.
  - rewrite (map_size_insert_None _ _ _ Hk).
    destruct (p r) eqn:Hp.
    + rewrite (map_filter_insert_True (λ kr, p kr.2 = true)) by exact Hp.
      rewrite (map_filter_insert_not' (λ kr, p kr.2 = false)); simpl.
      * rewrite map_size_insert_None by (rewrite map_lookup_filter_None; auto). lia.
      * congruence.
      * intros y Hy. congruence.
    + rewrite (map_filter_insert_True (λ kr, p kr.2 = false)) by exact Hp.
      rewrite (map_filter_insert_not' (λ kr, p kr.2 = true)); simpl.
      * rewrite (map_size_insert_None _ _ (filter (λ kr, p kr.2 = false) t))
          by (rewrite map_lookup_filter_None; auto). lia.
      * congruence.
      * intros y Hy. congruence.
Qed.

Lemma cleanup_ready c t now :
  ready c t ->
  cleanup now c =
    (Ok (count_rows (is_expired now) t),
     with_db c (Some (filter (λ kr, is_expired now kr.2 = false) t))).
Proof. intros [Hdb Hst]. unfold cleanup, stmt_cleanup. rewrite Hdb, Hst. reflexivity. Qed.

Lemma ready_with_db c t t' : ready c t -> ready (with_db c (Some t')) t'.
Proof. intros [_ Hst]. split; [reflexivity | exact Hst]. Qed.

Lemma cleanup_nothing_expired c t now :
  ready c t ->
  (forall key r, t !! key = Some r -> now < expires_at r) ->
  cleanup now c = (Ok 0, c).
Proof.
  intros Hready Hlive. rewrite (cleanup_ready _ _ _ Hready).
  assert (forall key r, t !! key = Some r -> is_expired now r = false) as Hne.
  { intros key r Hr. apply Hlive in Hr. unfold is_expired. lia. }
  f_equal.
  - f_equal. unfold count_rows.
    replace (filter (λ kr : string * row, is_expired now kr.2 = true) t) with (∅ : table).
    + rewrite map_size_empty. reflexivity.
    + symmetry. apply map_empty_filter_2. intros key r Hr. simpl.
      rewrite (Hne _ _ Hr). discriminate.
  - rewrite map_filter_id by (intros key r Hr; simpl; eauto).
    destruct Hready as [Hdb _]. destruct c; simpl in *. subst. reflexivity.
Qed.

(** C8: on an initialised engine, whatever its table holds, [cleanup]
    removes exactly the rows with [expires_at <= now] and returns how many
    they were; a second [cleanup], as long as no remaining row has expired
    since, removes nothing and returns 0. *)
Theorem cleanup_removes_expired (c : SQLiteCache) (t : table) (now : Z) :
  ready c t ->
  exists n c',
    cleanup now c = (Ok n, c') /\
    (forall key,
        rows c' !! key =
        match t !! key with
        | Some r => if expires_at r <=? now then None else Some r
        | None => None
        end) /\
    n = count_rows (is_expired now) t /\
    n = Z.of_nat (size t) - Z.of_nat (size (rows c')) /\
    cleanup now c' = (Ok 0, c') /\
    (forall later, (forall key r, rows c' !! key = Some r -> later < expires_at r) ->
       cleanup later c' = (Ok 0, c')).
Proof.
  intros Hready.
  exists (count_rows (is_expired now) t),
    (with_db c (Some (filter (λ kr, is_expired now kr.2 = false) t))).
  pose proof (ready_with_db c t (filter (λ kr, is_expired now kr.2 = false) t) Hready)
    as Hready'.
  rewrite rows_with_db.
  assert (forall key r,
            filter (λ kr : string * row, is_expired now kr.2 = false) t !! key = Some r ->
            now < expires_at r) as Hlive.
  { intros key r Hr. apply map_lookup_filter_Some in Hr as [_ Hr].
    simpl in Hr. unfold is_expired in Hr. lia. }
  split; [apply cleanup_ready; exact Hready |].
  split; [| split; [reflexivity | split; [| split]]].
  - intros key. destruct (t !! key) as [r|] eqn:Hr.
    + destruct (Z.leb_spec (expires_at r) now) as [Hle | Hgt].
      * apply map_lookup_filter_None. right. intros r0 Hr0.
        assert (r0 = r) as -> by congruence. simpl. unfold is_expired.
        destruct (Z.leb_spec (expires_at r) now); [discriminate | lia].
      * apply map_lookup_filter_Some. split; [exact Hr |].
        simpl. unfold is_expired. lia.
    + apply map_lookup_filter_None. left. exact Hr.
  - unfold count_rows. pose proof (size_filter_split (is_expired now) t). lia.
  - eapply cleanup_nothing_expired; [exact Hready' | exact Hlive].
  - intros later Hlater. eapply cleanup_nothing_expired; [exact Hready' | exact Hlater].
Qed.

Lemma cleanup_removes_expired_witness :
  cleanup 200 (snd (cleanup 200 (snd (set 100 "k" (VNum 1) (Some 50) fresh_engine))))
  = (Ok 0, snd (cleanup 200 (snd (set 100 "k" (VNum 1) (Some 50) fresh_engine)))).
Proof.
  destruct (cleanup_removes_expired
              (snd (set 100 "k" (VNum 1) (Some 50) fresh_engine))
              (rows (snd (set 100 "k" (VNum 1) (Some 50) fresh_engine))) 200)
    as (n & c' & Hc & _ & _ & _ & Hagain & _).
  - split; reflexivity.
  - rewrite Hc. simpl. exact Hagain.
Defined.

(** ** Division and toFixed *)

(** Rounding a quotient to the nearest integer stays within half of the
    divisor. *)
Lemma round_half_even_close (num den : Z) :
  0 < den ->
  let q := num / den in
  let r := num mod den in
  let m := if (2 * r >? den) || ((2 * r =? den) && Z.odd q) then q + 1 else q in
  2 * (m * den - num) <= den /\ 2 * (num - m * den) <= den.
Proof.
  intros Hden q r m.
  pose proof (Z.div_mod num den ltac:(lia)) as Hdm.
  pose proof (Z.mod_pos_bound num den Hden) as Hr.
  fold q in Hdm. fold r in Hdm, Hr.
  subst m.
  destruct (Z.gtb_spec (2 * r) den) as [Hgt | Hle]; simpl.
  - nia.
  - destruct (Z.eqb_spec (2 * r) den) as [Heq | Hne]; simpl.
    + destruct (Z.odd q); nia.
    + nia.
Qed.

(** The exponent chosen by [div_magnitude] is negative for a small
    dividend and normalises the significand to at least [2^52]. *)
Lemma div_magnitude_exponent (a b : Z) :
  0 < a -> 0 < b -> a < 2 ^ 46 ->
  let la := Z.log2 a in
  let lb := Z.log2 b in
  let e := if a * 2 ^ lb >=? b * 2 ^ la then la - lb - 52 else la - lb - 53 in
  e < 0 /\ 2 ^ 52 * b <= a * 2 ^ (- e).
Proof.
  intros Ha Hb Hsmall la lb e.
  pose proof (Z.log2_spec a Ha) as [Hla1 Hla2]. fold la in Hla1, Hla2.
  pose proof (Z.log2_spec b Hb) as [Hlb1 Hlb2]. fold lb in Hlb1, Hlb2.
  pose proof (Z.log2_nonneg a) as Hla0. fold la in Hla0.
  pose proof (Z.log2_nonneg b) as Hlb0. fold lb in Hlb0.
  assert (la < 46) as Hla46 by (apply Z.log2_lt_pow2; lia).
  assert (0 < 2 ^ la) as Hpa by (apply Z.pow_pos_nonneg; lia).
  assert (0 < 2 ^ lb) as Hpb by (apply Z.pow_pos_nonneg; lia).
  assert (0 < 2 ^ (52 - la)) as Hpc by (apply Z.pow_pos_nonneg; lia).
  assert (2 ^ la * 2 ^ (52 - la) = 2 ^ 52) as Hsplit
    by (rewrite <- Z.pow_add_r by lia; f_equal; lia).
  subst e. destruct (Z.geb_spec (a * 2 ^ lb) (b * 2 ^ la)) as [Hge | Hlt].
  - split; [lia |].
    replace (- (la - lb - 52)) with (lb + (52 - la)) by lia.
    rewrite Z.pow_add_r by lia.
    transitivity (b * 2 ^ la * 2 ^ (52 - la)); [nia | nia].
  - split; [lia |].
    replace (- (la - lb - 53)) with (Z.succ lb + (52 - la)) by lia.
    rewrite Z.pow_add_r, Z.pow_succ_r in * by lia.
    transitivity (2 ^ la * (2 * 2 ^ lb) * 2 ^ (52 - la)); [nia | nia].
Qed.

(** The arithmetic core: a significand within half a unit of the scaled
    quotient, scaled by more than [100 * b], rounds to a nearest hundredth
    of the exact quotient. *)
Lemma nearest_hundredth_close (a b m P r : Z) :
  0 < a -> 0 < b -> 0 < P ->
  200 * a < 2 ^ 53 ->
  2 ^ 52 * b <= a * P ->
  2 * (m * b - a * P) <= b -> 2 * (a * P - m * b) <= b ->
  2 * P * r <= 200 * m + P -> 200 * m + P < 2 * P * (r + 1) ->
  2 * Z.abs (100 * a - r * b) <= b.
Proof.
  intros Ha Hb HP Hbound Hnorm Hm1 Hm2 Hr1 Hr2.
  assert (100 * b < P) as Hscale.
  { assert (200 * (2 ^ 52 * b) < 2 ^ 53 * P) by nia.
    change (2 ^ 53) with (2 * 2 ^ 52) in *. nia. }
  destruct (Z.le_gt_cases (2 * Z.abs (100 * a - r * b)) b) as [Hok | Hbad]; [exact Hok |].
  exfalso.
  destruct (Z.abs_spec (100 * a - r * b)) as [[Hpos Habs] | [Hneg Habs]]; rewrite Habs in Hbad.
  - (* the exact quotient lies above the next tie *)
    assert ((2 * r + 1) * b + 1 <= 200 * a) as H1 by lia.
    assert (((2 * r + 1) * b + 1) * P <= 200 * a * P) as H2 by nia.
    assert (200 * m * b < (2 * r + 1) * P * b) as H3 by nia.
    nia.
  - (* the exact quotient lies below the previous tie *)
    assert (200 * a + 1 <= (2 * r - 1) * b) as H1 by lia.
    assert ((200 * a + 1) * P <= (2 * r - 1) * b * P) as H2 by nia.
    assert ((2 * r - 1) * P * b <= 200 * m * b) as H3 by nia.
    nia.
Qed.

(** [(a / b).toFixed(2)] is [a / b] rounded to a nearest hundredth, for
    [a] below [2^53 / 200]. *)
Lemma toFixed2_div_close (a b : Z) :
  0 <= a -> 0 < b -> 200 * a < 2 ^ 53 ->
  exists r, toFixed2 (js_div a b) = fixed2 r /\ 0 <= r /\
            2 * Z.abs (100 * a - r * b) <= b.
Proof.
  intros Ha Hb Hbound.
  destruct (Z.eq_dec a 0) as [-> | Hnz].
  - exists 0. split; [reflexivity |]. split; [lia |]. simpl. lia.
  - assert (0 < a) as Hpos by lia.
    assert (a < 2 ^ 46) as Hsmall by (change (2 ^ 53) with (128 * 2 ^ 46) in Hbound; lia).
    unfold js_div.
    destruct (Z.eqb_spec a 0) as [| _]; [contradiction |].
    destruct (Z.gtb_spec a 0) as [_ |]; [| lia].
    pose proof (div_magnitude_exponent a b Hpos Hb Hsmall) as Hexp.
    unfold div_magnitude. cbv zeta in Hexp |- *.
    set (e := if a * 2 ^ Z.log2 b >=? b * 2 ^ Z.log2 a
              then Z.log2 a - Z.log2 b - 52 else Z.log2 a - Z.log2 b - 53) in *.
    destruct Hexp as [He Hnorm].
    destruct (Z.geb_spec e 0) as [| _]; [lia |].
    pose proof (round_half_even_close (a * 2 ^ (- e)) b Hb) as Hm. cbv zeta in Hm.
    set (m := if (2 * ((a * 2 ^ (- e)) mod b) >? b)
                 || ((2 * ((a * 2 ^ (- e)) mod b) =? b) && Z.odd (a * 2 ^ (- e) / b))
              then a * 2 ^ (- e) / b + 1 else a * 2 ^ (- e) / b) in *.
    destruct Hm as [Hm1 Hm2].
    assert (0 < 2 ^ (- e)) as HP by (apply Z.pow_pos_nonneg; lia).
    assert (0 <= m) as Hm0 by nia.
    unfold toFixed2. simpl mant. simpl expo.
    destruct (Z.ltb_spec m 0) as [| _]; [lia |].
    unfold nearest_multiple. simpl mant. simpl expo.
    destruct (Z.geb_spec e 0) as [| _]; [lia |].
    set (r := (2 * 100 * m + 2 ^ (- e)) / (2 * 2 ^ (- e))).
    exists r. split; [reflexivity |].
    pose proof (Z.div_mod (2 * 100 * m + 2 ^ (- e)) (2 * 2 ^ (- e)) ltac:(lia)) as Hdm.
    pose proof (Z.mod_pos_bound (2 * 100 * m + 2 ^ (- e)) (2 * 2 ^ (- e)) ltac:(lia)) as Hmod.
    fold r in Hdm.
    split; [apply Z.div_pos; lia |].
    apply (nearest_hundredth_close a b m (2 ^ (- e)) r); try assumption; lia.
Qed.

(** ** stats *)

Lemma or_zero_some (x : Z) : (if x =? 0 then 0 else x) = x.
Proof. destruct (Z.eqb_spec x 0); congruence. Qed.

Lemma count_active_expired (now : Z) (t : table) :
  count_rows (is_active now) t + count_rows (is_expired now) t = Z.of_nat (size t).
Proof.
  unfold count_rows.
  assert (filter (λ kr : string * row, is_expired now kr.2 = true) t
          = filter (λ kr : string * row, is_active now kr.2 = false) t) as ->.
  { apply map_filter_ext. intros k r _. simpl. unfold is_expired, is_active. lia. }
  pose proof (size_filter_split (is_active now) t). lia.
Qed.

Lemma or_zero_some_opt (x : Z) : or_zero (Some x) = x.
Proof. unfold or_zero, or_default. destruct (Z.eqb_spec x 0); congruence. Qed.

Lemma count_rows_empty (p : row -> bool) : count_rows p ∅ = 0.
Proof. unfold count_rows. rewrite map_filter_empty, map_size_empty. reflexivity. Qed.

(** C9, as stated, fails for very large hit counts: with 105553116266497
    hits over 3 rows the quotient is 35184372088832.333..., which rounds to
    ....33, but the double nearest to it is 35184372088832.3359375 and
    [toFixed(2)] prints ....34. *)
Lemma hit_rate_double_rounding :
  exists s, fst (stats 0 busy_engine) = Ok s /\
    total s = 3 /\ total_hits s = 105553116266497 /\
    hit_rate s = "35184372088832.34" /\
    2 * Z.abs (100 * total_hits s - 3518437208883233 * total s) <= total s /\
    ~ 2 * Z.abs (100 * total_hits s - 3518437208883234 * total s) <= total s.
Proof.
  eexists. split; [vm_compute; reflexivity |]. simpl.
  repeat split; [vm_compute; discriminate | vm_compute; intros H; apply H; reflexivity].
Qed.

(** At an exact tie the printed hundredth depends on the double: 9/8 is
    exact and prints upwards, 203/200 is not and prints downwards. *)
Lemma hit_rate_ties :
  toFixed2 (js_div 9 8) = "1.13" /\ toFixed2 (js_div 203 200) = "1.01" /\
  toFixed2 (js_div 201 200) = "1.00".
Proof. repeat split; vm_compute; reflexivity. Qed.

(** C9 (amended): in the snapshot of [stats], [total = active + expired],
    every row counted in exactly one of the two; [hit_rate] is '0.00' when
    [total = 0], and when [total > 0] and [total_hits < 2^53 / 200] it is
    the two-decimal text of a hundredth nearest to [total_hits / total]. *)
Theorem stats_snapshot (c : SQLiteCache) (now : Z) (s : stats_result) :
  fst (stats now c) = Ok s ->
  total s = Z.of_nat (size (rows c)) /\
  active s = count_rows (is_active now) (rows c) /\
  expired s = count_rows (is_expired now) (rows c) /\
  total s = active s + expired s /\
  (total s = 0 -> hit_rate s = "0.00") /\
  (0 < total s -> 0 <= total_hits s -> 200 * total_hits s < 2 ^ 53 ->
   exists r, hit_rate s = fixed2 r /\
             2 * Z.abs (100 * total_hits s - r * total s) <= total s).
Proof.
  unfold stats, rows. destruct (db c) as [t|]; [| discriminate].
  destruct (statements c); try discriminate. cbn [unusable].
  simpl. intros [= <-]. simpl.
  pose proof (count_active_expired now t) as Hsum.
  unfold stmt_stats.
  destruct (Z.eqb_spec (Z.of_nat (size t)) 0) as [Hz | Hnz]; simpl.
  - assert (t = ∅) as -> by (apply map_size_empty_inv; lia).
    rewrite !count_rows_empty, map_size_empty. simpl.
    repeat split; try reflexivity. lia.
  - rewrite !or_zero_some.
    repeat split; try reflexivity; try lia.
    intros Hpos Hhits Hbound.
    destruct (Z.gtb_spec (Z.of_nat (size t)) 0) as [_ |]; [| lia].
    destruct (toFixed2_div_close _ _ Hhits Hpos Hbound) as (r & Hr & _ & Hclose).
    exists r. split; assumption.
Qed.

Lemma stats_snapshot_witness :
  exists s, fst (stats 150 (snd (get 120 "k" (snd (set 100 "k" (VNum 1) None fresh_engine)))))
            = Ok s /\
    total s = active s + expired s /\
    exists r, hit_rate s = fixed2 r /\ 2 * Z.abs (100 * total_hits s - r * total s) <= total s.
Proof.
  eexists. split; [reflexivity |].
  destruct (stats_snapshot
              (snd (get 120 "k" (snd (set 100 "k" (VNum 1) None fresh_engine)))) 150 _ eq_refl)
    as (_ & _ & _ & Hsum & _ & Hrate).
  split; [exact Hsum |].
  apply Hrate; vm_compute; congruence.
Defined.

(** ** generateKey *)

Lemma hex_byte_length (b : Z) : String.length (MD5.hex_byte b) = 2%nat.
Proof. reflexivity. Qed.

Lemma string_length_app (a b : string) :
  String.length (a ++ b) = (String.length a + String.length b)%nat.
Proof. induction a as [| x a IH]; simpl; [reflexivity | rewrite IH; reflexivity]. Qed.

Lemma hex_length (bs : list Z) : String.length (MD5.hex bs) = (2 * length bs)%nat.
Proof.
  induction bs as [| b bs IH]; [reflexivity |].
  cbn [MD5.hex]. rewrite string_length_app, hex_byte_length, IH. simpl. lia.
Qed.

Lemma md5_hex_length (str : string) : String.length (MD5.md5_hex str) = 32%nat.
Proof.
  unfold MD5.md5_hex, MD5.digest. cbv zeta.
  generalize (MD5.process_blocks (length (MD5.pad (MD5.bytes_of_string str)) / 64)
                MD5.init_state (MD5.pad (MD5.bytes_of_string str))).
  intros st. rewrite hex_length. reflexivity.
Qed.




(** ** The middleware *)

Lemma capture_out now i parsed w : out (res (capture now i parsed w)) = out (res w).
Proof.
  unfold capture.
  destruct (negb (i_skipSuccessful i) && (statusCode (res (install None w)) >=? 200)
            && (statusCode (res (install None w)) <? 300)); [| reflexivity].
  destruct parsed as [v|]; [| reflexivity].
  destruct (set now (i_cacheKey i) v (Some (i_ttl i)) (cache (install None w))) as [[ok | e] c'];
    reflexivity.
Qed.

(** What the handler writes reaches Express unchanged and once, whether or
    not storing it fails. *)
Lemma res_json_forwards now data w :
  out (res (res_json now data w)) = (out (res w) ++ [ToJson data])%list.
Proof.
  unfold res_json. destruct (intercept (res w)) as [i|]; simpl; [| reflexivity].
  rewrite capture_out. reflexivity.
Qed.

Lemma res_send_forwards now data w :
  out (res (res_send now data w)) = (out (res w) ++ [ToSend data])%list.
Proof.
  unfold res_send. destruct (intercept (res w)) as [i|]; simpl; [| reflexivity].
  rewrite capture_out. reflexivity.
Qed.

(** A failing lookup is reported and the request goes on to its handler. *)
Lemma lookup_failure_calls_next options now req w key e c' :
  condition_of options req = Ok true ->
  method req = "GET" ->
  keyGenerator_of options req = Ok key ->
  get now key (cache w) = (Throw e, c') ->
  createCacheMiddleware options now req w
  = Next (console_error ("Cache middleware error: " ++ message_of e) (with_cache w c')).
Proof.
  intros Hc Hm Hk Hg. unfold createCacheMiddleware.
  rewrite Hc, Hm, Hk, Hg. reflexivity.
Qed.

(** A failing key derivation is not caught. *)
Lemma key_failure_is_thrown options now req w e :
  condition_of options req = Ok true ->
  method req = "GET" ->
  keyGenerator_of options req = Throw e ->
  createCacheMiddleware options now req w = Thrown e w.
Proof.
  intros Hc Hm Hk. unfold createCacheMiddleware.
  rewrite Hc, Hm, Hk. reflexivity.
Qed.

(** C2 fails on the code at a key generator that throws: the exception
    leaves the middleware, [next()] is not called, the handler does not
    run and the error becomes the error of the request; with the default
    key generator the same request reaches its handler. *)
Theorem key_derivation_failure_escapes :
  serve per_user_options users_handler 0 1 get_users (world_of fresh_engine)
  = {| invoked := false;
       raised := Some (TypeError "Cannot read properties of undefined (reading 'id')");
       final := world_of fresh_engine |} /\
  invoked (serve default_options users_handler 0 1 get_users (world_of fresh_engine)) = true.
Proof. split; reflexivity. Qed.

(** C10: [get] returns null for an active entry whose blob reads as null,
    as it does for a missing or an expired key; and for an active entry
    whose value is falsy the middleware takes the miss path: it calls
    [next()], so the handler runs, and nothing is served from the cache.
    null, false, 0 and the empty string are such values, stored and read
    back as themselves. *)
Theorem falsy_entry_is_a_miss (options : middleware_options) (now : Z) (req : request)
    (w : world) (t : table) (key : string) (r : row) (v : js_value) :
  ready (cache w) t ->
  t !! key = Some r ->
  is_active now r = true ->
  JSON_parse (value r) = Some v ->
  truthy v = false ->
  condition_of options req = Ok true ->
  method req = "GET" ->
  keyGenerator_of options req = Ok key ->
  (v = VNull -> fst (get now key (cache w)) = Ok VNull) /\
  (forall other r', t !! other = None \/
                    (t !! other = Some r' /\ is_active now r' = false) ->
     fst (get now other (cache w)) = Ok VNull) /\
  (exists w', createCacheMiddleware options now req w = Next w' /\
              out (res w') = out (res w) /\
              intercept (res w') = Some {| i_cacheKey := key; i_ttl := ttl_of options;
                                           i_skipSuccessful := skipSuccessful_of options |}) /\
  (forall handler later, invoked (serve options handler now later req w) = true) /\
  Forall (λ x, truthy x = false /\ (JSON_stringify x ≫= JSON_parse) = Some x)
         [VNull; VBool false; VNum 0; VStr EmptyString].
Proof.
  intros Hready Hr Ha Hv Hf Hc Hm Hk.
  pose proof (get_hit _ _ _ _ _ _ Hready Hr Ha Hv) as Hget.
  assert (createCacheMiddleware options now req w
          = Next (install (Some {| i_cacheKey := key; i_ttl := ttl_of options;
                                   i_skipSuccessful := skipSuccessful_of options |})
                    (with_cache w (with_db (cache w) (Some (stmt_updateAccess now key t))))))
    as Hmw.
  { unfold createCacheMiddleware. rewrite Hc, Hm, Hk, Hget. simpl. rewrite Hf. reflexivity. }
  split; [| split; [| split; [| split]]].
  - intros ->. rewrite Hget. reflexivity.
  - intros other r' Hother. destruct Hready as [Hdb Hst].
    unfold get, stmt_get. rewrite Hdb, Hst. cbn [unusable].
    destruct Hother as [-> | [-> ->]]; reflexivity.
  - eexists. split; [exact Hmw |]. split; reflexivity.
  - intros handler later. unfold serve. rewrite Hmw. reflexivity.
  - repeat constructor.
Qed.

Lemma falsy_entry_is_a_miss_witness :
  invoked (serve default_options users_handler 20 21 get_users
             (world_of (snd (set 10 "GET:/api/users" (VNum 0) None fresh_engine)))) = true.
Proof.
  apply (falsy_entry_is_a_miss default_options 20 get_users
           (world_of (snd (set 10 "GET:/api/users" (VNum 0) None fresh_engine)))
           (rows (snd (set 10 "GET:/api/users" (VNum 0) None fresh_engine)))
           "GET:/api/users"
           {| value := "0"; expires_at := 3610; created_at := 10; accessed_at := 10;
              hit_count := 1 |}
           (VNum 0)); try reflexivity.
  split; reflexivity.
Defined.

(** ** JSON text: strings and numbers *)

Lemma append_assoc (a b c : string) : (a ++ b) ++ c = a ++ (b ++ c).
Proof. induction a as [| x a IH]; simpl; [reflexivity | rewrite IH; reflexivity]. Qed.

Lemma parse_escape_char (c : ascii) (tail : string) :
  parse_string_body (escape_char c ++ tail)
  = prepend (String c EmptyString) (parse_string_body tail).
Proof.
  destruct c as [[] [] [] [] [] [] [] []]; reflexivity.
Qed.

Lemma parse_escape_chars (s rest : string) :
  parse_string_body (escape_chars s ++ String dquote rest) = Some (s, rest).
Proof.
  induction s as [| c s IH].
  - reflexivity.
  - cbn [escape_chars]. rewrite append_assoc, parse_escape_char, IH. reflexivity.
Qed.

Lemma read_digits_uint (u : Decimal.uint) (rest : string) :
  match rest with String c _ => digit_of c = None | EmptyString => True end ->
  read_digits (NilEmpty.string_of_uint u ++ rest) = (u, rest).
Proof.
  intros Hrest. induction u as [| u IH | u IH | u IH | u IH | u IH | u IH | u IH | u IH | u IH | u IH];
    simpl; try (rewrite IH; reflexivity).
  destruct rest as [| c rest']; [reflexivity |]. simpl. rewrite Hrest. reflexivity.
Qed.

Lemma ends_number_no_digit (rest : string) :
  ends_number rest = true ->
  match rest with String c _ => digit_of c = None | EmptyString => True end.
Proof.
  destruct rest as [| c rest']; [trivial |]. simpl.
  destruct (digit_of c); [discriminate | reflexivity].
Qed.

Lemma ends_number_no_fraction (rest : string) :
  ends_number rest = true -> starts_fraction rest = false.
Proof.
  destruct rest as [| c rest']; [reflexivity |]. unfold ends_number.
  destruct (digit_of c); [discriminate |].
  destruct (starts_fraction (String c rest')); [discriminate | reflexivity].
Qed.

(** The digits of a positive number do not begin with 0. *)
Lemma pos_to_uint_head (p : positive) :
  match Pos.to_uint p with
  | Decimal.Nil | Decimal.D0 _ => False
  | _ => True
  end.
Proof.
  pose proof (DecimalPos.Unsigned.to_of (Pos.to_uint p)) as H.
  rewrite DecimalPos.Unsigned.of_to in H. simpl in H.
  pose proof (DecimalFacts.nzhead_nonzero (Pos.to_uint p)) as Hnz.
  unfold Decimal.unorm in H.
  destruct (Decimal.nzhead (Pos.to_uint p)) eqn:Hhd.
  - exfalso. apply (DecimalPos.Unsigned.to_uint_nonzero p). exact H.
  - exfalso. eapply Hnz. reflexivity.
  - rewrite H. trivial.
  - rewrite H. trivial.
  - rewrite H. trivial.
  - rewrite H. trivial.
  - rewrite H. trivial.
  - rewrite H. trivial.
  - rewrite H. trivial.
  - rewrite H. trivial.
  - rewrite H. trivial.
Qed.

Lemma parse_number_digits (negative : bool) (u : Decimal.uint) (rest : string) :
  match u with
  | Decimal.Nil => False
  | Decimal.D0 Decimal.Nil => True
  | Decimal.D0 _ => False
  | _ => True
  end ->
  ends_number rest = true ->
  parse_number ((if negative then "-" else EmptyString) ++ NilEmpty.string_of_uint u ++ rest)
  = Some (VNum (Z.of_int (if negative then Decimal.Neg u else Decimal.Pos u)), rest).
Proof.
  intros Hu Hrest.
  pose proof (read_digits_uint u rest (ends_number_no_digit _ Hrest)) as Hread.
  pose proof (ends_number_no_fraction _ Hrest) as Hfrac.
  unfold parse_number.
  destruct negative.
  - change ("-" ++ NilEmpty.string_of_uint u ++ rest)
      with (String "-" (NilEmpty.string_of_uint u ++ rest)).
    cbv iota beta. change (Ascii.eqb "-" "-") with true. cbv iota. rewrite Hread.
    destruct u as [| [] | | | | | | | | |]; try contradiction; rewrite Hfrac; reflexivity.
  - change (EmptyString ++ NilEmpty.string_of_uint u ++ rest)
      with (NilEmpty.string_of_uint u ++ rest).
    assert ((match NilEmpty.string_of_uint u ++ rest with
             | String c r =>
                 if Ascii.eqb c "-" then (true, r)
                 else (false, NilEmpty.string_of_uint u ++ rest)
             | EmptyString => (false, NilEmpty.string_of_uint u ++ rest)
             end) = (false, NilEmpty.string_of_uint u ++ rest)) as ->.
    { destruct u; try contradiction; reflexivity. }
    rewrite Hread.
    destruct u as [| [] | | | | | | | | |]; try contradiction; rewrite Hfrac; reflexivity.
Qed.

Lemma parse_number_to_string (n : Z) (rest : string) :
  ends_number rest = true ->
  parse_number (number_to_string n ++ rest) = Some (VNum n, rest).
Proof.
  intros Hrest. unfold number_to_string.
  rewrite <- (DecimalZ.of_to n) at 2.
  destruct n as [| p | p]; simpl Z.to_int.
  - apply (parse_number_digits false (Decimal.D0 Decimal.Nil) rest I Hrest).
  - pose proof (pos_to_uint_head p) as Hhd.
    assert (NilZero.string_of_int (Decimal.Pos (Pos.to_uint p))
            = NilEmpty.string_of_uint (Pos.to_uint p)) as ->
      by (simpl; destruct (Pos.to_uint p); [contradiction | reflexivity ..]).
    apply (parse_number_digits false); [| exact Hrest].
    destruct (Pos.to_uint p); try contradiction; trivial.
  - pose proof (pos_to_uint_head p) as Hhd.
    assert (NilZero.string_of_int (Decimal.Neg (Pos.to_uint p))
            = String "-" (NilEmpty.string_of_uint (Pos.to_uint p))) as ->
      by (simpl; destruct (Pos.to_uint p); [contradiction | reflexivity ..]).
    apply (parse_number_digits true); [| exact Hrest].
    destruct (Pos.to_uint p); try contradiction; trivial.
Qed.

(** ** JSON text: values *)

Lemma js_value_ind' (P : js_value -> Prop) :
  P VUndefined -> P VNull -> (forall b, P (VBool b)) -> (forall n, P (VNum n)) ->
  P VNaN -> (forall s, P (VStr s)) ->
  (forall l, Forall P l -> P (VArr l)) ->
  (forall m, Forall (λ kv, P kv.2) m -> P (VObj m)) ->
  forall v, P v.
Proof.
  intros Hu Hn Hb Hz Hnan Hs Harr Hobj.
  fix IH 1. intros [| | b | n | | s | l | m].
  - exact Hu.
  - exact Hn.
  - apply Hb.
  - apply Hz.
  - exact Hnan.
  - apply Hs.
  - apply Harr. induction l as [| e l IHl]; constructor; [apply IH | exact IHl].
  - apply Hobj. induction m as [| [k e] m IHm]; constructor; [apply IH | exact IHm].
Qed.

Lemma stringify_arr (l : list js_value) :
  JSON_stringify (VArr l) = Some ("[" ++ String.concat "," (map item_text l) ++ "]").
Proof.
  reflexivity.
Qed.

Lemma stringify_obj (m : list (string * js_value)) :
  JSON_stringify (VObj m) = Some ("{" ++ String.concat "," (member_texts m) ++ "}").
Proof.
  reflexivity.
Qed.

Lemma json_exact_arr (l : list js_value) : json_exact (VArr l) <-> Forall json_exact l.
Proof.
  cbn [json_exact]. induction l as [| e l IH]; [split; [constructor | trivial] |].
  rewrite Forall_cons, <- IH. reflexivity.
Qed.

Lemma json_exact_obj (m : list (string * js_value)) :
  json_exact (VObj m) <-> NoDup (map fst m) /\ Forall (λ kv, json_exact kv.2) m.
Proof.
  cbn [json_exact].
  assert ((fix each (l : list (string * js_value)) : Prop :=
             match l with
             | [] => True
             | (_, e) :: l' => json_exact e /\ each l'
             end) m <-> Forall (λ kv, json_exact kv.2) m) as ->; [| reflexivity].
  induction m as [| [k e] m IH]; [split; [constructor | trivial] |].
  rewrite Forall_cons, <- IH. reflexivity.
Qed.

Lemma json_exact_has_text (v : js_value) : json_exact v -> exists s, JSON_stringify v = Some s.
Proof.
  destruct v as [| | [] | n | | s | l | m]; simpl; try contradiction; eauto.
Qed.

Lemma skip_ws_start (c : ascii) (r : string) :
  is_ws c = false -> skip_ws (String c r) = String c r.
Proof. intros H. simpl. rewrite H. reflexivity. Qed.

Lemma number_first (n : Z) :
  exists c r, number_to_string n = String c r /\ starts_number c = true.
Proof.
  unfold number_to_string. destruct n as [| p | p]; simpl Z.to_int.
  - do 2 eexists. split; reflexivity.
  - pose proof (pos_to_uint_head p). simpl.
    destruct (Pos.to_uint p); try contradiction; do 2 eexists; split; reflexivity.
  - do 2 eexists. split; reflexivity.
Qed.

Lemma starts_number_value (c : ascii) : starts_number c = true -> starts_value c = true.
Proof. destruct c as [[] [] [] [] [] [] [] []]; intros H; try discriminate H; reflexivity. Qed.

(** The text of a value begins with a character that is neither white
    space nor a closing bracket. *)
Lemma stringify_first (v : js_value) (s : string) :
  JSON_stringify v = Some s -> exists c r, s = String c r /\ starts_value c = true.
Proof.
  destruct v as [| | [] | n | | str | l | m]; intros H.
  - discriminate.
  - injection H as <-. do 2 eexists. split; reflexivity.
  - injection H as <-. do 2 eexists. split; reflexivity.
  - injection H as <-. do 2 eexists. split; reflexivity.
  - injection H as <-. destruct (number_first n) as (c & r & -> & Hc).
    do 2 eexists. split; [reflexivity | apply starts_number_value; exact Hc].
  - injection H as <-. do 2 eexists. split; reflexivity.
  - injection H as <-. do 2 eexists. split; reflexivity.
  - rewrite stringify_arr in H. injection H as <-. do 2 eexists. split; reflexivity.
  - rewrite stringify_obj in H. injection H as <-. do 2 eexists. split; reflexivity.
Qed.

Lemma parse_value_number (fuel : nat) (c : ascii) (r : string) :
  starts_number c = true ->
  parse_value (S fuel) (String c r) = parse_number (String c r).
Proof.
  destruct c as [[] [] [] [] [] [] [] []]; intros H; try discriminate H; reflexivity.
Qed.

Lemma starts_value_inv (c : ascii) :
  starts_value c = true ->
  is_ws c = false /\ Ascii.eqb c "]" = false /\ Ascii.eqb c "}" = false.
Proof.
  unfold starts_value. destruct (is_ws c), (Ascii.eqb c "]"), (Ascii.eqb c "}");
    simpl; intros H; try discriminate H; auto.
Qed.

Lemma obj_define_fresh (k : string) (v : js_value) (o : list (string * js_value)) :
  k ∉ map fst o -> obj_define k v o = (o ++ [(k, v)])%list.
Proof.
  induction o as [| [k' v'] o IH]; intros Hk; [reflexivity |].
  cbn [obj_define]. cbn [map fst] in Hk.
  apply not_elem_of_cons in Hk as [Hne Hk].
  destruct (String.eqb_spec k k') as [-> | _]; [contradiction |].
  rewrite IH by exact Hk. reflexivity.
Qed.

Lemma parse_value_string (fuel : nat) (r : string) :
  parse_value (S fuel) (String dquote r)
  = match parse_string_body r with
    | Some (str, r') => Some (VStr str, r')
    | None => None
    end.
Proof. reflexivity. Qed.

Lemma parse_value_array (fuel : nat) (r : string) :
  parse_value (S fuel) (String "[" r)
  = match skip_ws r with
    | String c' r' =>
        if Ascii.eqb c' "]" then Some (VArr [], r') else parse_elements fuel r []
    | EmptyString => None
    end.
Proof. reflexivity. Qed.

Lemma parse_value_object (fuel : nat) (r : string) :
  parse_value (S fuel) (String "{" r)
  = match skip_ws r with
    | String c' r' =>
        if Ascii.eqb c' "}" then Some (VObj [], r') else parse_members fuel r []
    | EmptyString => None
    end.
Proof. reflexivity. Qed.

Lemma parse_elements_eq (fuel : nat) (s : string) (acc : list js_value) :
  parse_elements (S fuel) s acc
  = match parse_value fuel s with
    | None => None
    | Some (v, r) =>
        match skip_ws r with
        | String c r' =>
            if Ascii.eqb c "," then parse_elements fuel r' (acc ++ [v])%list
            else if Ascii.eqb c "]" then Some (VArr (acc ++ [v])%list, r')
            else None
        | EmptyString => None
        end
    end.
Proof. reflexivity. Qed.

Lemma parse_members_key (fuel : nat) (k tail : string) (acc : list (string * js_value)) :
  parse_members (S fuel) (String dquote (escape_chars k ++ String dquote (String ":" tail))) acc
  = match parse_value fuel tail with
    | None => None
    | Some (v, r3) =>
        match skip_ws r3 with
        | String c3 r4 =>
            if Ascii.eqb c3 "," then parse_members fuel r4 (obj_define k v acc)
            else if Ascii.eqb c3 "}" then Some (VObj (obj_define k v acc), r4)
            else None
        | EmptyString => None
        end
    end.
Proof.
  cbn [parse_members].
  rewrite skip_ws_start by reflexivity. rewrite Ascii.eqb_refl.
  rewrite parse_escape_chars. rewrite skip_ws_start by reflexivity.
  change (Ascii.eqb ":" ":") with true. cbv iota. reflexivity.
Qed.

Lemma concat_cons (x : string) (l : list string) :
  l <> [] -> String.concat "," (x :: l) = x ++ String "," (String.concat "," l).
Proof. destruct l; [contradiction | reflexivity]. Qed.

Lemma member_layout (k t x : string) :
  (quote k ++ ":" ++ t) ++ x
  = String dquote (escape_chars k ++ String dquote (String ":" (t ++ x))).
Proof.
  unfold quote. simpl. rewrite !append_assoc. simpl. reflexivity.
Qed.

Lemma parse_elements_items (l : list js_value) :
  l <> [] ->
  Forall (λ e, json_exact e /\ reads_back e) l ->
  forall acc fuel rest,
    (String.length (String.concat "," (map item_text l)) + 1 < fuel)%nat ->
    parse_elements fuel (String.concat "," (map item_text l) ++ String "]" rest) acc
    = Some (VArr (acc ++ l)%list, rest).
Proof.
  induction l as [| e l IH]; [contradiction |].
  intros _ Hall acc fuel rest Hfuel.
  apply Forall_cons in Hall as [[Hex Hrb] Hall].
  destruct (json_exact_has_text e Hex) as [t Ht].
  assert (item_text e = t) as Hit by (unfold item_text; rewrite Ht; reflexivity).
  destruct fuel as [| fuel]; [lia |].
  rewrite parse_elements_eq. cbn [map] in *. rewrite Hit in *.
  destruct l as [| e2 l2].
  - cbn [map String.concat] in *.
    rewrite (Hrb t Ht fuel (String "]" rest)) by (lia || reflexivity).
    reflexivity.
  - rewrite concat_cons in * by discriminate.
    rewrite string_length_app in Hfuel. cbn [String.length] in Hfuel.
    rewrite append_assoc.
    change (String "," (String.concat "," (map item_text (e2 :: l2))) ++ String "]" rest)
      with (String "," (String.concat "," (map item_text (e2 :: l2)) ++ String "]" rest)).
    rewrite (Hrb t Ht fuel) by (lia || reflexivity).
    rewrite skip_ws_start by reflexivity.
    change (Ascii.eqb "," ",") with true. cbv iota.
    rewrite IH; [| discriminate | exact Hall | lia].
    rewrite <- app_assoc. reflexivity.
Qed.

Lemma member_texts_nonempty (m : list (string * js_value)) :
  m <> [] -> Forall (λ kv, json_exact kv.2 /\ reads_back kv.2) m -> member_texts m <> [].
Proof.
  destruct m as [| [k e] m]; [contradiction |]. intros _ Hall.
  apply Forall_cons in Hall as [[Hex _] _]. simpl in Hex.
  destruct (json_exact_has_text e Hex) as [t Ht].
  cbn [member_texts]. rewrite Ht. discriminate.
Qed.

Lemma parse_members_texts (m : list (string * js_value)) :
  m <> [] ->
  Forall (λ kv, json_exact kv.2 /\ reads_back kv.2) m ->
  forall acc fuel rest,
    NoDup (map fst (acc ++ m)%list) ->
    (String.length (String.concat "," (member_texts m)) + 1 < fuel)%nat ->
    parse_members fuel (String.concat "," (member_texts m) ++ String "}" rest) acc
    = Some (VObj (acc ++ m)%list, rest).
Proof.
  induction m as [| [k e] m IH]; [contradiction |].
  intros _ Hall acc fuel rest Hnodup Hfuel.
  pose proof Hall as Hall0.
  apply Forall_cons in Hall as [[Hex Hrb] Hall]. simpl in Hex, Hrb.
  destruct (json_exact_has_text e Hex) as [t Ht].
  assert (k ∉ map fst acc) as Hfresh.
  { rewrite map_app in Hnodup. apply NoDup_app in Hnodup as (_ & Hdisj & _).
    intros Hin. apply (Hdisj k Hin). cbn [map fst]. left. }
  assert (NoDup (map fst ((acc ++ [(k, e)]) ++ m)%list)) as Hnodup'
    by (rewrite <- app_assoc; exact Hnodup).
  destruct fuel as [| fuel]; [lia |].
  cbn [member_texts] in *. rewrite Ht in *.
  destruct m as [| kv2 m2].
  - cbn [member_texts String.concat] in *.
    rewrite member_layout, parse_members_key.
    assert (String.length t < fuel)%nat as Hlen.
    { rewrite !string_length_app in Hfuel. lia. }
    rewrite (Hrb t Ht fuel (String "}" rest) Hlen eq_refl).
    rewrite skip_ws_start by reflexivity.
    change (Ascii.eqb "}" ",") with false. change (Ascii.eqb "}" "}") with true. cbv iota.
    rewrite obj_define_fresh by exact Hfresh. reflexivity.
  - pose proof (member_texts_nonempty (kv2 :: m2) ltac:(discriminate) Hall) as Hne.
    rewrite concat_cons in * by exact Hne.
    rewrite append_assoc.
    change (String "," (String.concat "," (member_texts (kv2 :: m2))) ++ String "}" rest)
      with (String "," (String.concat "," (member_texts (kv2 :: m2)) ++ String "}" rest)).
    rewrite member_layout, parse_members_key.
    rewrite !string_length_app in Hfuel. cbn [String.length] in Hfuel.
    rewrite (Hrb t Ht fuel) by (lia || reflexivity).
    rewrite skip_ws_start by reflexivity.
    change (Ascii.eqb "," ",") with true. cbv iota.
    rewrite obj_define_fresh by exact Hfresh.
    rewrite IH; [| discriminate | exact Hall | exact Hnodup' | lia].
    rewrite <- app_assoc. reflexivity.
Qed.

Lemma concat_first (c : ascii) (r : string) (ts : list string) :
  exists r', String.concat "," (String c r :: ts) = String c r'.
Proof. destruct ts; eexists; reflexivity. Qed.

Lemma append_nil_r (s : string) : s ++ EmptyString = s.
Proof. induction s as [| c s IH]; simpl; [reflexivity | rewrite IH; reflexivity]. Qed.

(** [JSON.parse] reads the text of an exact value back, within the fuel
    given by the length of the text. *)
Lemma stringify_reads_back (v : js_value) : json_exact v -> reads_back v.
Proof.
  induction v as [| | b | n | | str | l IHl | m IHm] using js_value_ind';
    intros Hex s Hs fuel rest Hfuel Hrest; try contradiction.
  - injection Hs as <-. destruct fuel as [| fuel]; [simpl in Hfuel; lia | reflexivity].
  - destruct fuel as [| fuel]; [lia |].
    destruct b; injection Hs as <-; reflexivity.
  - injection Hs as <-. destruct fuel as [| fuel]; [lia |].
    destruct (number_first n) as (c & r & Heq & Hc).
    pose proof (parse_number_to_string n rest Hrest) as Hnum.
    rewrite Heq in *. cbn [String.append] in *.
    rewrite parse_value_number by exact Hc. exact Hnum.
  - injection Hs as <-. destruct fuel as [| fuel]; [lia |].
    unfold quote. cbn [String.append]. rewrite append_assoc. cbn [String.append].
    rewrite parse_value_string, parse_escape_chars. reflexivity.
  - rewrite stringify_arr in Hs. injection Hs as <-.
    destruct fuel as [| fuel]; [lia |].
    apply json_exact_arr in Hex.
    assert (Forall (λ e, json_exact e /\ reads_back e) l) as Hall.
    { clear -IHl Hex. induction l as [| e l IH]; constructor.
      - apply Forall_cons in IHl as [He _]. apply Forall_cons in Hex as [Hx _]. auto.
      - apply Forall_cons in IHl as [_ Hl]. apply Forall_cons in Hex as [_ Hx]. auto. }
    cbn [String.append]. rewrite append_assoc. cbn [String.append].
    rewrite parse_value_array.
    destruct l as [| e l']; [reflexivity |].
    pose proof Hall as Hall0. apply Forall_cons in Hall0 as [[He _] _].
    destruct (json_exact_has_text e He) as [t Ht].
    destruct (stringify_first e t Ht) as (c0 & r0 & -> & Hc0).
    apply starts_value_inv in Hc0 as (Hws & Hclose & _).
    assert (item_text e = String c0 r0) as Hit by (unfold item_text; rewrite Ht; reflexivity).
    destruct (concat_first c0 r0 (map item_text l')) as [r' Hr'].
    cbn [String.length] in Hfuel. rewrite string_length_app in Hfuel.
    cbn [String.length] in Hfuel.
    pose proof (parse_elements_items (e :: l') ltac:(discriminate) Hall [] fuel rest
                  ltac:(lia)) as Hpe.
    cbn [app map] in *. rewrite Hit, Hr' in *. cbn [String.append] in *.
    rewrite skip_ws_start by exact Hws. rewrite Hclose. exact Hpe.
  - rewrite stringify_obj in Hs. injection Hs as <-.
    destruct fuel as [| fuel]; [lia |].
    apply json_exact_obj in Hex as [Hnodup Hex].
    assert (Forall (λ kv : string * js_value, json_exact kv.2 /\ reads_back kv.2) m) as Hall.
    { clear -IHm Hex. induction m as [| kv m IH]; constructor.
      - apply Forall_cons in IHm as [He _]. apply Forall_cons in Hex as [Hx _]. auto.
      - apply Forall_cons in IHm as [_ Hl]. apply Forall_cons in Hex as [_ Hx]. auto. }
    cbn [String.append]. rewrite append_assoc. cbn [String.append].
    rewrite parse_value_object.
    destruct m as [| [k e] m']; [reflexivity |].
    pose proof Hall as Hall0. apply Forall_cons in Hall0 as [[He _] _]. simpl in He.
    destruct (json_exact_has_text e He) as [t Ht].
    cbn [String.length] in Hfuel. rewrite string_length_app in Hfuel.
    cbn [String.length] in Hfuel.
    pose proof (parse_members_texts ((k, e) :: m') ltac:(discriminate) Hall [] fuel rest
                  Hnodup ltac:(lia)) as Hpm.
    cbn [app member_texts] in *. rewrite Ht in *.
    destruct (concat_first dquote ((escape_chars k ++ String dquote EmptyString) ++ ":" ++ t)
                (member_texts m')) as [r' Hr'].
    change (quote k ++ ":" ++ t)
      with (String dquote ((escape_chars k ++ String dquote EmptyString) ++ ":" ++ t)) in *.
    rewrite Hr' in *. cbn [String.append] in *. rewrite skip_ws_start by reflexivity.
    exact Hpm.
Qed.

(** What [JSON.stringify] writes for an exact value, [JSON.parse] reads
    back as that value. *)
Lemma JSON_roundtrip (v : js_value) (s : string) :
  json_exact v -> JSON_stringify v = Some s -> JSON_parse s = Some v.
Proof.
  intros Hex Hs. unfold JSON_parse.
  pose proof (stringify_reads_back v Hex s Hs (S (String.length s)) EmptyString
                ltac:(lia) eq_refl) as H.
  rewrite append_nil_r in H. rewrite H. reflexivity.
Qed.

(** ** Deep equality *)

Lemma obj_get_member (m : list (string * js_value)) (k : string) (x : js_value) :
  NoDup (map fst m) -> (k, x) ∈ m -> obj_get k m = Some x.
Proof.
  induction m as [| [k' x'] m IH]; intros Hnd Hin.
  - apply elem_of_nil in Hin. contradiction.
  - cbn [map fst] in Hnd. apply NoDup_cons in Hnd as [Hk' Hnd].
    cbn [obj_get]. apply elem_of_cons in Hin as [Heq | Hin].
    + injection Heq as -> ->. rewrite String.eqb_refl. reflexivity.
    + destruct (String.eqb_spec k k') as [-> | _].
      * exfalso. apply Hk'. apply list_elem_of_fmap. exists (k', x). split; [reflexivity | exact Hin].
      * apply IH; assumption.
Qed.

Lemma deep_equal_refl (v : js_value) : json_exact v -> deep_equal v v = true.
Proof.
  induction v as [| | b | n | | str | l IHl | m IHm] using js_value_ind';
    intros Hex; try contradiction; try reflexivity.
  - destruct b; reflexivity.
  - simpl. apply Z.eqb_refl.
  - simpl. apply String.eqb_refl.
  - apply json_exact_arr in Hex. cbn [deep_equal].
    induction l as [| e l IH]; [reflexivity |].
    apply Forall_cons in IHl as [He IHl]. apply Forall_cons in Hex as [Hx Hex].
    rewrite (He Hx), (IH IHl Hex). reflexivity.
  - apply json_exact_obj in Hex as [Hnd Hex]. cbn [deep_equal].
    rewrite Nat.eqb_refl. cbn [andb].
    assert (forall l, (forall k x, (k, x) ∈ l -> (k, x) ∈ m) ->
            (fix all (l : list (string * js_value)) : bool :=
               match l with
               | [] => true
               | (k, x) :: l' =>
                   match obj_get k m with
                   | Some y => deep_equal x y
                   | None => false
                   end && all l'
               end) l = true) as Hall.
    { induction l as [| [k x] l IH]; intros Hsub; [reflexivity |].
      assert ((k, x) ∈ m) as Hin by (apply Hsub; left).
      rewrite (obj_get_member m k x Hnd Hin).
      rewrite Forall_forall in IHm, Hex.
      pose proof (IHm (k, x) Hin (Hex (k, x) Hin)) as Hx. simpl in Hx. rewrite Hx.
      apply IH. intros k0 x0 H0. apply Hsub. right. exact H0. }
    apply Hall. auto.
Qed.

(** ** set, then get *)




(* ===================================================================== *)
(** * Part III: further properties of the engine, the middleware and the routes *)
(* ===================================================================== *)

(** ** has, get, delete, clear *)

Lemma stmt_get_Some now key (t : table) r :
  stmt_get now key t = Some r <-> t !! key = Some r /\ now < expires_at r.
Proof.
  unfold stmt_get, is_active. destruct (t !! key) as [r0|]; [| split; [discriminate | intros [[=] _]]].
  destruct (Z.gtb_spec (expires_at r0) now); split.
  - intros [= ->]. split; [reflexivity | lia].
  - intros [[= ->] _]. reflexivity.
  - discriminate.
  - intros [[= ->] ?]. lia.
Qed.

Lemma stmt_get_None now key (t : table) :
  stmt_get now key t = None <->
  t !! key = None \/ exists r, t !! key = Some r /\ expires_at r <= now.
Proof.
  unfold stmt_get, is_active. destruct (t !! key) as [r0|].
  - destruct (Z.gtb_spec (expires_at r0) now); split.
    + discriminate.
    + intros [[=] | (r & [= <-] & ?)]. lia.
    + intros _. right. eauto.
    + reflexivity.
  - split; [auto | reflexivity].
Qed.

Lemma get_miss (c : SQLiteCache) (t : table) (now : Z) (key : string) :
  ready c t ->
  t !! key = None \/ (exists r, t !! key = Some r /\ expires_at r <= now) ->
  get now key c = (Ok VNull, c).
Proof.
  intros [Hdb Hst] Habs. apply stmt_get_None in Habs.
  unfold get. rewrite Hdb, Hst, Habs. reflexivity.
Qed.

Lemma has_miss (c : SQLiteCache) (t : table) (now : Z) (key : string) :
  ready c t ->
  t !! key = None \/ (exists r, t !! key = Some r /\ expires_at r <= now) ->
  has now key c = (Ok false, c).
Proof.
  intros [Hdb Hst] Habs. apply stmt_get_None in Habs.
  unfold has, stmt_has. rewrite Hdb, Hst, Habs. reflexivity.
Qed.

Lemma stmt_updateAccess_insert (now : Z) (key : string) (t : table) (r : row) :
  t !! key = Some r -> stmt_updateAccess now key t = <[key := touch now r]> t.
Proof.
  intros Hr. unfold stmt_updateAccess. apply map_eq. intros k.
  rewrite lookup_alter, lookup_insert. case_decide; [subst; rewrite Hr |]; reflexivity.
Qed.

(** X1: [has] answers whether an active entry exists, and changes nothing:
    no hit is counted and the access time stays. *)
Theorem has_active_entry (c : SQLiteCache) (t : table) (now : Z) (key : string) :
  ready c t ->
  exists b, has now key c = (Ok b, c) /\
            (b = true <-> exists r, t !! key = Some r /\ now < expires_at r).
Proof.
  intros [Hdb Hst]. unfold has, stmt_has. rewrite Hdb, Hst. cbn [unusable].
  destruct (stmt_get now key t) as [r|] eqn:Hg.
  - exists true. split; [reflexivity |]. split; [| reflexivity].
    intros _. exists r. apply stmt_get_Some. exact Hg.
  - exists false. split; [reflexivity |]. split; [discriminate |].
    intros (r & Hr). apply stmt_get_Some in Hr. congruence.
Qed.

Lemma has_active_entry_witness :
  exists b, has 150 "k" (snd (set 100 "k" (VNum 1) (Some 60) fresh_engine))
            = (Ok b, snd (set 100 "k" (VNum 1) (Some 60) fresh_engine)) /\ b = true.
Proof.
  destruct (has_active_entry (snd (set 100 "k" (VNum 1) (Some 60) fresh_engine))
              (rows (snd (set 100 "k" (VNum 1) (Some 60) fresh_engine))) 150 "k")
    as (b & Hb & Hiff).
  - split; reflexivity.
  - exists b. split; [exact Hb |]. apply Hiff. eexists. split; [reflexivity | simpl; lia].
Defined.

(** X2: for a key that is missing, or whose entry has expired and is still
    in the table, [get] returns null and [has] returns false, and neither
    changes the engine: the expired row is not touched. *)
Theorem absent_or_expired (c : SQLiteCache) (t : table) (now : Z) (key : string) :
  ready c t ->
  t !! key = None \/ (exists r, t !! key = Some r /\ expires_at r <= now) ->
  get now key c = (Ok VNull, c) /\ has now key c = (Ok false, c).
Proof.
  intros Hready Habs. split; [eapply get_miss | eapply has_miss]; eassumption.
Qed.

Lemma absent_or_expired_witness :
  get 200 "k" (snd (set 100 "k" (VNum 1) (Some 60) fresh_engine))
  = (Ok VNull, snd (set 100 "k" (VNum 1) (Some 60) fresh_engine)).
Proof.
  apply (absent_or_expired (snd (set 100 "k" (VNum 1) (Some 60) fresh_engine))
           (rows (snd (set 100 "k" (VNum 1) (Some 60) fresh_engine))) 200 "k").
  - split; reflexivity.
  - right. eexists. split; [reflexivity | simpl; lia].
Defined.



(** X4: [delete] returns whether a row with the key was in the table, be
    it active or expired; afterwards the key is gone ([has] is false and
    [get] is null at any time) and every other row is as it was. *)
Theorem delete_removes (c : SQLiteCache) (t : table) (key : string) :
  ready c t ->
  exists b c',
    delete_ key c = (Ok b, c') /\
    (b = true <-> is_Some (t !! key)) /\
    ready c' (delete key t) /\
    (forall later, get later key c' = (Ok VNull, c') /\ has later key c' = (Ok false, c')) /\
    (forall other, other <> key -> rows c' !! other = t !! other).
Proof.
  intros Hready. pose proof Hready as [Hdb Hst].
  exists (match t !! key with Some _ => 1 | None => 0 end >? 0), (with_db c (Some (delete key t))).
  pose proof (ready_with_db c t (delete key t) Hready) as Hready'.
  split; [unfold delete_, stmt_delete; rewrite Hdb, Hst; reflexivity |].
  split; [| split; [exact Hready' | split]].
  - destruct (t !! key); simpl; split; intros H; try discriminate; eauto.
    destruct H as [x [=]].
  - intros later.
    split; [eapply get_miss | eapply has_miss]; try exact Hready'; left; apply lookup_delete_eq.
  - intros other Hne. rewrite rows_with_db. apply lookup_delete_ne. congruence.
Qed.

Lemma delete_removes_witness :
  fst (delete_ "k" stored_engine) = Ok true /\
  fst (delete_ "k" (snd (delete_ "k" stored_engine))) = Ok false.
Proof.
  destruct (delete_removes stored_engine {["k" := busy_row 7]} "k") as (b & c' & Hd & Hb & Hr & _).
  - split; reflexivity.
  - rewrite Hd. cbn [fst snd]. split.
    + f_equal. apply Hb. eexists. reflexivity.
    + destruct (delete_removes c' _ "k" Hr) as (b2 & c2 & Hd2 & Hb2 & _).
      rewrite Hd2. cbn [fst]. f_equal. destruct b2; [| reflexivity].
      destruct Hb2 as [Hb2 _]. destruct (Hb2 eq_refl) as [x Hx].
      rewrite lookup_delete_eq in Hx. discriminate Hx.
Defined.

(** X5: [clear] empties the table, expired rows included: afterwards
    [stats] reports zero everywhere with hit rate '0.00', and [get] of any
    key returns null. *)
Theorem clear_then_stats (c : SQLiteCache) (t : table) (now : Z) :
  ready c t ->
  exists c',
    clear c = (Ok true, c') /\
    ready c' ∅ /\
    stats now c' = (Ok {| total := 0; active := 0; expired := 0; avg_size := 0;
                          total_hits := 0; hit_rate := "0.00" |}, c') /\
    (forall key, get now key c' = (Ok VNull, c')).
Proof.
  intros Hready. pose proof Hready as [Hdb Hst].
  exists (with_db c (Some ∅)).
  pose proof (ready_with_db c t ∅ Hready) as Hready'.
  split; [unfold clear, stmt_clear; rewrite Hdb, Hst; reflexivity |].
  split; [exact Hready' | split].
  - unfold stats. cbn [db with_db statements]. rewrite Hst. reflexivity.
  - intros key. apply (get_miss _ _ now key Hready'). left. apply lookup_empty.
Qed.

Lemma clear_then_stats_witness :
  fst (stats 0 (snd (clear busy_engine)))
  = Ok {| total := 0; active := 0; expired := 0; avg_size := 0;
          total_hits := 0; hit_rate := "0.00" |}.
Proof.
  destruct (clear_then_stats busy_engine (rows busy_engine) 0) as (c' & Hc & _ & Hs & _).
  - split; reflexivity.
  - rewrite Hc. cbn [snd]. rewrite Hs. reflexivity.
Defined.

(** ** set: other keys, overwriting, expiry *)

(** X6: a [set] of one key leaves every other row as it was, so [get] and
    [has] of another key answer as before. *)
Theorem set_other_keys (c : SQLiteCache) (now later : Z) (key other : string)
    (v : js_value) (ttl : option Z) :
  other <> key ->
  rows (snd (set now key v ttl c)) !! other = rows c !! other /\
  fst (get later other (snd (set now key v ttl c))) = fst (get later other c) /\
  fst (has later other (snd (set now key v ttl c))) = fst (has later other c).
Proof.
  intros Hne. unfold set.
  destruct (db c) as [t|] eqn:Hdb; [| auto].
  destruct (statements c) eqn:Hst; cbn [unusable]; auto.
  destruct (JSON_stringify v) as [s|]; [| auto].
  cbn [snd]. rewrite rows_with_db.
  assert (stmt_set now key s (now + or_default ttl (defaultTTL c)) t !! other = t !! other)
    as Hlook by (unfold stmt_set; apply lookup_insert_ne; congruence).
  split; [unfold rows; rewrite Hdb; exact Hlook |].
  unfold get, has, stmt_has, stmt_get. cbn [db with_db statements].
  rewrite Hdb, Hst, Hlook. cbn [unusable].
  split.
  - destruct (t !! other) as [r|]; [| reflexivity].
    destruct (is_active later r); [| reflexivity].
    destruct (JSON_parse (value r)); reflexivity.
  - reflexivity.
Qed.

Lemma set_other_keys_witness :
  fst (get 5 "k" (snd (set 3 "j" (VNum 2) None stored_engine))) = fst (get 5 "k" stored_engine).
Proof.
  apply (set_other_keys stored_engine 3 5 "j" "k" (VNum 2) None). discriminate.
Defined.



(** X8: an entry stored with a positive ttl is gone for readers once the
    ttl has passed, also before any [cleanup] has run: [get] returns null
    and [has] false, while the row is still in the table and [stats]
    counts it as expired. *)
Theorem expired_entry_is_absent (c : SQLiteCache) (t : table) (now later : Z) (key : string)
    (v : js_value) (ttl : Z) (s : string) :
  ready c t ->
  JSON_stringify v = Some s ->
  0 < ttl ->
  now + ttl <= later ->
  let c' := snd (set now key v (Some ttl) c) in
  get later key c' = (Ok VNull, c') /\
  has later key c' = (Ok false, c') /\
  is_Some (rows c' !! key) /\
  exists st, fst (stats later c') = Ok st /\ 1 <= expired st.
Proof.
  intros Hready Hs Httl Hlater c'.
  pose proof (set_ready c t now key v (Some ttl) s Hready Hs) as Hset.
  assert (or_default (Some ttl) (defaultTTL c) = ttl) as Hor
    by (simpl; destruct (Z.eqb_spec ttl 0); [lia | reflexivity]).
  rewrite Hor in Hset.
  set (t' := stmt_set now key s (now + ttl) t) in *.
  pose proof (ready_with_db c t t' Hready) as Hready'.
  subst c'. rewrite Hset. cbn [snd].
  assert (t' !! key = Some {| value := s; expires_at := now + ttl; created_at := now;
                              accessed_at := now; hit_count := 1 |}) as Hrow
    by (subst t'; unfold stmt_set; apply lookup_insert_eq).
  assert (t' !! key = None \/ (exists r, t' !! key = Some r /\ expires_at r <= later)) as Habs
    by (right; eexists; split; [exact Hrow | simpl; lia]).
  pose proof (get_miss _ t' later key Hready' Habs) as Hget.
  pose proof (has_miss _ t' later key Hready' Habs) as Hhas.
  split; [exact Hget | split; [exact Hhas | split]].
  - rewrite rows_with_db, Hrow. eauto.
  - destruct Hready' as [Hdb' Hst']. unfold stats. rewrite Hdb', Hst'. cbn [unusable fst].
    eexists. split; [reflexivity |]. cbn [expired].
    unfold stmt_stats.
    assert (1 <= count_rows (is_expired later) t') as Hcount.
    { unfold count_rows.
      assert (size (filter (λ kr : string * row, is_expired later kr.2 = true) t') <> 0%nat).
      { apply map_size_non_empty_iff. intros Hempty.
        assert (filter (λ kr : string * row, is_expired later kr.2 = true) t' !! key
                = Some {| value := s; expires_at := now + ttl; created_at := now;
                          accessed_at := now; hit_count := 1 |}) as Hin.
        { apply map_lookup_filter_Some. split; [exact Hrow |]. simpl. unfold is_expired. simpl. lia. }
        rewrite Hempty, lookup_empty in Hin. discriminate. }
      lia. }
    destruct (Z.eqb_spec (Z.of_nat (size t')) 0) as [Hz | Hnz].
    + exfalso. assert (t' = ∅) as Ht' by (apply map_size_empty_inv; lia).
      rewrite Ht', lookup_empty in Hrow. discriminate.
    + cbn [sr_expired]. rewrite or_zero_some_opt. exact Hcount.
Qed.

Lemma expired_entry_is_absent_witness :
  get 160 "k" (snd (set 100 "k" (VNum 1) (Some 60) fresh_engine))
  = (Ok VNull, snd (set 100 "k" (VNum 1) (Some 60) fresh_engine)).
Proof.
  apply (expired_entry_is_absent fresh_engine ∅ 100 160 "k" (VNum 1) 60 "1"
           fresh_engine_ready eq_refl); lia.
Defined.

(** X9: with non-negative TTLs a stored entry is visible at once: on an
    engine built with no default TTL or a non-negative one (0 is replaced
    by 3600), a [set] with no ttl or a non-negative one (0 is replaced by
    the default) is followed by [has] answering true. *)
Theorem stored_entry_is_visible (path : option string) (options : cache_options)
    (stored : table) (now : Z) (key : string) (v : js_value) (ttl : option Z) (s : string) :
  opt_defaultTTL options = None \/ (exists n, opt_defaultTTL options = Some n /\ 0 <= n) ->
  ttl = None \/ (exists m, ttl = Some m /\ 0 <= m) ->
  JSON_stringify v = Some s ->
  let c := snd (init (Opened stored) (constructor path options)) in
  0 < defaultTTL c /\
  fst (has now key (snd (set now key v ttl c))) = Ok true.
Proof.
  intros Hopt Httl Hs c.
  assert (0 < defaultTTL c) as Hdef.
  { change (defaultTTL c) with (or_default (opt_defaultTTL options) 3600).
    destruct Hopt as [-> | (n & -> & Hn)]; unfold or_default; [lia |].
    destruct (Z.eqb_spec n 0); lia. }
  split; [exact Hdef |].
  assert (ready c stored) as Hready by (split; reflexivity).
  rewrite (set_ready c stored now key v ttl s Hready Hs). cbn [snd].
  assert (0 < or_default ttl (defaultTTL c)) as Hpos.
  { destruct Httl as [-> | (m & -> & Hm)]; unfold or_default; [exact Hdef |].
    destruct (Z.eqb_spec m 0); lia. }
  unfold has, stmt_has, stmt_get, stmt_set. cbn [db with_db statements].
  destruct Hready as [_ ->]. cbn [unusable].
  rewrite lookup_insert_eq. unfold is_active. cbn [expires_at].
  destruct (Z.gtb_spec (now + or_default ttl (defaultTTL c)) now); [reflexivity | lia].
Qed.

Lemma stored_entry_is_visible_witness :
  fst (has 100 "k" (snd (set 100 "k" (VNum 1) (Some 0) fresh_engine))) = Ok true.
Proof.
  apply (stored_entry_is_visible None no_options ∅ 100 "k" (VNum 1) (Some 0) "1").
  - left. reflexivity.
  - right. exists 0. split; [reflexivity | lia].
  - reflexivity.
Defined.

(** ** cleanup and reads *)

Lemma stmt_get_after_cleanup (t : table) (now later : Z) (key : string) :
  now <= later ->
  stmt_get later key (filter (λ kr : string * row, is_expired now kr.2 = false) t)
  = stmt_get later key t.
Proof.
  intros Hle. unfold stmt_get.
  destruct (t !! key) as [r|] eqn:Hr.
  - destruct (is_expired now r) eqn:He.
    + assert (filter (λ kr : string * row, is_expired now kr.2 = false) t !! key = None) as ->.
      { apply map_lookup_filter_None. right. intros r0 Hr0.
        assert (r0 = r) as -> by congruence. simpl. congruence. }
      unfold is_expired, is_active in *.
      destruct (Z.gtb_spec (expires_at r) later); [lia | reflexivity].
    + assert (filter (λ kr : string * row, is_expired now kr.2 = false) t !! key = Some r) as ->
        by (apply map_lookup_filter_Some; auto).
      reflexivity.
  - assert (filter (λ kr : string * row, is_expired now kr.2 = false) t !! key = None) as ->
      by (apply map_lookup_filter_None; auto).
    reflexivity.
Qed.

Lemma stats_ready (c : SQLiteCache) (t : table) (now : Z) :
  ready c t ->
  exists st, stats now c = (Ok st, c) /\
    total st = Z.of_nat (size t) /\
    active st = count_rows (is_active now) t /\
    expired st = count_rows (is_expired now) t /\
    total_hits st = sum_rows hit_count t.
Proof.
  intros [Hdb Hst]. unfold stats. rewrite Hdb, Hst. cbn [unusable].
  eexists. split; [reflexivity |]. cbn [total active expired total_hits].
  unfold stmt_stats.
  destruct (Z.eqb_spec (Z.of_nat (size t)) 0) as [Hz | Hnz];
    cbn [sr_total sr_active sr_expired sr_total_hits].
  - assert (t = ∅) as -> by (apply map_size_empty_inv; lia).
    rewrite !count_rows_empty, map_size_empty. repeat split.
  - rewrite !or_zero_some_opt. repeat split.
Qed.

(** X10: reclamation is invisible to readers: after a [cleanup], [get] and
    [has] of every key answer at that time and at any later time as they
    would have without it; [stats] then reports no expired row and the
    same number of active ones. *)
Theorem cleanup_is_invisible (c : SQLiteCache) (t : table) (now later : Z) :
  ready c t ->
  now <= later ->
  let c' := snd (cleanup now c) in
  (forall key, fst (get later key c') = fst (get later key c) /\
               fst (has later key c') = fst (has later key c)) /\
  exists st st', fst (stats now c) = Ok st /\ fst (stats now c') = Ok st' /\
    active st' = active st /\ expired st' = 0 /\ total st' = active st.
Proof.
  intros Hready Hle c'.
  pose proof (cleanup_ready c t now Hready) as Hc.
  set (tf := filter (λ kr : string * row, is_expired now kr.2 = false) t) in *.
  pose proof (ready_with_db c t tf Hready) as Hready'.
  subst c'. rewrite Hc. cbn [snd].
  split.
  - intros key. pose proof (stmt_get_after_cleanup t now later key Hle) as Hg. fold tf in Hg.
    destruct Hready as [Hdb Hst].
    unfold get, has, stmt_has. cbn [db with_db statements]. rewrite Hdb, Hst, Hg.
    cbn [unusable]. split; [| reflexivity].
    destruct (stmt_get later key t) as [r|]; [| reflexivity].
    destruct (JSON_parse (value r)); reflexivity.
  - destruct (stats_ready c t now Hready) as (st & Hs & Htot & Hact & Hexp & _).
    destruct (stats_ready _ tf now Hready') as (st' & Hs' & Htot' & Hact' & Hexp' & _).
    exists st, st'. rewrite Hs, Hs'. cbn [fst].
    assert (count_rows (is_active now) tf = count_rows (is_active now) t) as Hsame.
    { unfold count_rows, tf. rewrite map_filter_filter. do 2 f_equal.
      apply map_filter_ext. intros k r _. simpl. unfold is_active, is_expired. lia. }
    assert (count_rows (is_expired now) tf = 0) as Hnone.
    { unfold count_rows.
      replace (filter (λ kr : string * row, is_expired now kr.2 = true) tf) with (∅ : table).
      - rewrite map_size_empty. reflexivity.
      - symmetry. apply map_empty_filter_2. intros k r Hr. simpl.
        apply map_lookup_filter_Some in Hr as [_ Hr]. simpl in Hr. congruence. }
    pose proof (count_active_expired now tf) as Hsum.
    repeat split; try reflexivity; lia.
Qed.

Lemma cleanup_is_invisible_witness :
  fst (get 20 "k" (snd (cleanup 20 stored_engine))) = fst (get 20 "k" stored_engine).
Proof.
  apply (cleanup_is_invisible stored_engine {["k" := busy_row 7]} 20 20); [split; reflexivity | lia].
Defined.

(** ** init and close *)

(** X11: [close] can be called twice: the second call changes nothing.
    After [close] the timer is off, a late firing of the timer does
    nothing, and a new [init] makes the engine ready again, with the rows
    the storage holds and the timer set. *)
Theorem close_is_idempotent (c : SQLiteCache) (now : Z) (stored : table) :
  close (close c) = close c /\
  cleanupTimer (close c) = false /\
  db (close c) = None /\
  cleanup_tick now (close c) = close c /\
  ready (snd (init (Opened stored) (close c))) stored /\
  cleanupTimer (snd (init (Opened stored) (close c))) = true.
Proof.
  assert (db (close c) = None) as Hdb.
  { unfold close, with_timer. cbn [db]. destruct (db c); reflexivity. }
  assert (cleanupTimer (close c) = false) as Htimer.
  { unfold close, with_timer. cbn [db]. destruct (db c); reflexivity. }
  repeat split; try assumption.
  - unfold close at 1. unfold with_timer at 1. cbn [db]. rewrite Hdb.
    destruct (close c) eqn:Hc. simpl in *. subst. reflexivity.
  - unfold cleanup_tick, cleanup. rewrite Hdb. reflexivity.
Qed.



(** ** Hit counts over time *)

Lemma size_le_sum_hits (t : table) :
  hits_positive t -> Z.of_nat (size t) <= sum_rows hit_count t.
Proof.
  unfold sum_rows.
  apply (map_fold_weak_ind (λ acc m, hits_positive m -> Z.of_nat (size m) <= acc)).
  - intros _. rewrite map_size_empty. lia.
  - intros key r m acc Hnone IH Hpos.
    assert (1 <= hit_count r) by (apply (Hpos key); apply lookup_insert_eq).
    assert (Z.of_nat (size m) <= acc).
    { apply IH. intros k r0 Hr0. apply (Hpos k).
      rewrite lookup_insert_ne; [exact Hr0 | congruence]. }
    rewrite map_size_insert_None by exact Hnone. lia.
Qed.

Lemma run_all_hits_positive (calls : list (Z * call)) (c : SQLiteCache) :
  hits_positive (rows c) -> hits_positive (rows (run_all calls c)).
Proof.
  revert c. induction calls as [| [now op] calls IH]; intros c Hpos; [exact Hpos |].
  apply IH. apply run_hits_positive. exact Hpos.
Qed.

Lemma run_all_ready (calls : list (Z * call)) (c : SQLiteCache) (t : table) :
  ready c t -> exists t', ready (run_all calls c) t'.
Proof.
  revert c t. induction calls as [| [now op] calls IH]; intros c t Hready; [eauto |].
  cbn [run_all fold_left]. fold (run_all calls (run now op c)).
  assert (exists t', ready (run now op c) t') as [t' Hr']; [| eapply IH; exact Hr'].
  pose proof Hready as [Hdb Hst].
  destruct op as [k v ttl | k | k | k | | | limit |]; simpl;
    unfold set, get, delete_, has, clear, stats, getAllEntries, cleanup, stmt_delete, stmt_cleanup;
    rewrite Hdb, Hst; cbn [unusable].
  - destruct (JSON_stringify v); simpl; eauto using ready_with_db.
  - destruct (stmt_get now k t); [destruct (JSON_parse _) |]; simpl; eauto using ready_with_db.
  - simpl. eauto using ready_with_db.
  - simpl. eauto.
  - simpl. eauto using ready_with_db.
  - simpl. eauto.
  - destruct (map_rows _); simpl; eauto.
  - simpl. eauto using ready_with_db.
Qed.

(** X13: every row has been hit at least once, whatever calls are made:
    starting from a table where this holds (an empty one, say), after any
    sequence of calls at any times every row has [hit_count >= 1], and
    [stats] reports [total_hits >= total]. *)
Theorem hit_counts_stay_positive (calls : list (Z * call)) (c : SQLiteCache) (t : table)
    (now : Z) :
  ready c t ->
  hits_positive t ->
  hits_positive (rows (run_all calls c)) /\
  exists st, fst (stats now (run_all calls c)) = Ok st /\ total st <= total_hits st.
Proof.
  intros Hready Hpos.
  assert (hits_positive (rows (run_all calls c))) as Hpos'.
  { apply run_all_hits_positive. destruct Hready as [Hdb _].
    unfold rows. rewrite Hdb. exact Hpos. }
  split; [exact Hpos' |].
  destruct (run_all_ready calls c t Hready) as [t' Hready'].
  destruct (stats_ready _ t' now Hready') as (st & Hs & Htot & _ & _ & Hhits).
  exists st. rewrite Hs. split; [reflexivity |].
  rewrite Htot, Hhits. apply size_le_sum_hits.
  destruct Hready' as [Hdb' _]. unfold rows in Hpos'. rewrite Hdb' in Hpos'. exact Hpos'.
Qed.

Lemma hit_counts_stay_positive_witness :
  exists st,
    fst (stats 9 (run_all [(1, CallSet "a" VNull None); (2, CallGet "a"); (3, CallDelete "b")]
                    fresh_engine)) = Ok st /\
    total st <= total_hits st.
Proof.
  destruct (hit_counts_stay_positive
              [(1, CallSet "a" VNull None); (2, CallGet "a"); (3, CallDelete "b")]
              fresh_engine ∅ 9 fresh_engine_ready) as [_ H].
  - intros key r Hr. rewrite lookup_empty in Hr. discriminate Hr.
  - exact H.
Defined.

(** ** getAllEntries *)

#[local] Instance newer_first_total : Total newer_first.
Proof. intros a b. unfold newer_first. lia. Qed.

#[local] Instance newer_first_trans : Transitive newer_first.
Proof. intros a b c. unfold newer_first. lia. Qed.

Lemma submseteq_NoDup {A} (l k : list A) : l ⊆+ k -> NoDup k -> NoDup l.
Proof.
  intros Hsub Hnd. apply submseteq_Permutation in Hsub as [k' Hk'].
  rewrite Hk' in Hnd. apply NoDup_app in Hnd as [Hl _]. exact Hl.
Qed.

Lemma stmt_getAll_submseteq (now limit : Z) (t : table) :
  stmt_getAll now limit t ⊆+ map_to_list t.
Proof.
  unfold stmt_getAll.
  assert (merge_sort newer_first
            (filter (λ kr : string * row, is_active now kr.2 = true) (map_to_list t))
          ⊆+ map_to_list t) as Hsort.
  { etransitivity; [apply Permutation_submseteq, merge_sort_Permutation |].
    apply sublist_submseteq, sublist_filter. }
  destruct (limit <? 0); [exact Hsort |].
  etransitivity; [apply submseteq_take | exact Hsort].
Qed.

Lemma stmt_getAll_active (now limit : Z) (t : table) (k : string) (r : row) :
  (k, r) ∈ stmt_getAll now limit t -> t !! k = Some r /\ now < expires_at r.
Proof.
  unfold stmt_getAll. intros Hin.
  assert ((k, r) ∈ merge_sort newer_first
            (filter (λ kr : string * row, is_active now kr.2 = true) (map_to_list t))) as Hin'.
  { destruct (limit <? 0); [exact Hin |].
    eapply elem_of_submseteq; [exact Hin | apply submseteq_take]. }
  rewrite merge_sort_Permutation in Hin'.
  apply list_elem_of_filter in Hin' as [Hact Hin'].
  apply elem_of_map_to_list in Hin'. simpl in Hact. unfold is_active in Hact.
  split; [exact Hin' | lia].
Qed.

Lemma Sorted_take {A} (R : relation A) (l : list A) (n : nat) :
  Sorted R l -> Sorted R (take n l).
Proof.
  revert n. induction l as [| x l IH]; intros n Hs; [destruct n; constructor |].
  destruct n as [| n]; [constructor |].
  apply Sorted_inv in Hs as [Hs Hhd]. cbn [take]. constructor; [apply IH; exact Hs |].
  destruct l as [| y l]; [destruct n; constructor |].
  destruct n as [| n]; [constructor |].
  apply HdRel_inv in Hhd. constructor. exact Hhd.
Qed.

Lemma stmt_getAll_sorted (now limit : Z) (t : table) :
  Sorted newer_first (stmt_getAll now limit t).
Proof.
  unfold stmt_getAll.
  destruct (limit <? 0); [| apply Sorted_take]; apply Sorted_merge_sort; apply _.
Qed.

Lemma active_list_length (now : Z) (t : table) :
  Z.of_nat (length (filter (λ kr : string * row, is_active now kr.2 = true) (map_to_list t)))
  = count_rows (is_active now) t.
Proof.
  unfold count_rows. f_equal.
  rewrite (map_filter_alt (λ kr : string * row, is_active now kr.2 = true) t).
  symmetry. apply map_size_list_to_map.
  eapply submseteq_NoDup; [| apply (NoDup_fst_map_to_list t)].
  apply fmap_submseteq, sublist_submseteq, sublist_filter.
Qed.

Lemma stmt_getAll_length (now limit : Z) (t : table) :
  Z.of_nat (length (stmt_getAll now limit t))
  = if limit <? 0 then count_rows (is_active now) t
    else Z.min limit (count_rows (is_active now) t).
Proof.
  unfold stmt_getAll. rewrite <- active_list_length.
  pose proof (Permutation_length
                (merge_sort_Permutation newer_first
                   (filter (λ kr : string * row, is_active now kr.2 = true) (map_to_list t))))
    as Hlen.
  destruct (Z.ltb_spec limit 0); [lia |].
  rewrite length_take. lia.
Qed.

Lemma map_rows_entries (l : list (string * row)) (es : list entry) :
  map_rows l = Some es ->
  Forall2 (λ kr e, exists v, JSON_parse (value kr.2) = Some v /\ e = entry_of kr.1 kr.2 v) l es.
Proof.
  revert es. induction l as [| [k r] l IH]; intros es H.
  - injection H as <-. constructor.
  - cbn [map_rows] in H. destruct (JSON_parse (value r)) as [v|] eqn:Hv; [| discriminate].
    destruct (map_rows l) as [es'|]; [| discriminate]. injection H as <-.
    constructor; [exists v; split; [exact Hv | reflexivity] | apply IH; reflexivity].
Qed.

Lemma map_rows_fails (l : list (string * row)) :
  map_rows l = None <-> exists k r, (k, r) ∈ l /\ JSON_parse (value r) = None.
Proof.
  induction l as [| [k r] l IH]; cbn [map_rows].
  - split; [discriminate | intros (k & r & Hin & _); apply elem_of_nil in Hin; contradiction].
  - destruct (JSON_parse (value r)) as [v|] eqn:Hv.
    + destruct (map_rows l) as [es|].
      * split; [discriminate |]. intros (k' & r' & Hin & Hnone).
        apply elem_of_cons in Hin as [[= -> ->] | Hin]; [congruence |].
        destruct IH as [_ IH]. discriminate IH. eauto.
      * split; [| reflexivity]. intros _. destruct IH as [IH _].
        destruct (IH eq_refl) as (k' & r' & Hin & Hnone).
        exists k', r'. split; [right; exact Hin | exact Hnone].
    + split; [| reflexivity]. intros _. exists k, r. split; [left | exact Hv].
Qed.

Lemma entries_of_rows (l : list (string * row)) (es : list entry) :
  Forall2 (λ kr e, exists v, JSON_parse (value kr.2) = Some v /\ e = entry_of kr.1 kr.2 v) l es ->
  Sorted newer_first l ->
  NoDup l.*1 ->
  (forall e, e ∈ es ->
     exists r v, (e_key e, r) ∈ l /\ JSON_parse (value r) = Some v /\ e = entry_of (e_key e) r v) /\
  Sorted (λ a b, e_accessed_at b <= e_accessed_at a) es /\
  NoDup (map e_key es).
Proof.
  intros Hmap.
  induction Hmap as [| [k r] e l es' (v & Hv & ->) Hrest IH]; intros Hsorted Hnd.
  - repeat split; try constructor.
    intros e He. apply elem_of_nil in He. contradiction.
  - apply Sorted_inv in Hsorted as [Hsorted Hhd].
    cbn [fmap list_fmap fst] in Hnd. apply NoDup_cons in Hnd as [Hk Hnd].
    destruct (IH Hsorted Hnd) as (Hin & Hs & Hn).
    assert (map e_key es' = l.*1) as Hkeys.
    { clear -Hrest. induction Hrest as [| [k0 r0] e0 l0 es0 (v0 & _ & ->) _ IH0];
        [reflexivity | cbn; rewrite IH0; reflexivity]. }
    split; [| split].
    + intros e He. apply elem_of_cons in He as [-> | He].
      * exists r, v. simpl. split; [left | auto].
      * destruct (Hin e He) as (r0 & v0 & H0 & H1 & H2).
        exists r0, v0. split; [right; exact H0 | auto].
    + constructor; [exact Hs |].
      destruct Hrest as [| [k2 r2] e2 l2 es2 (v2 & _ & ->) _]; [constructor |].
      apply HdRel_inv in Hhd. constructor. unfold newer_first in Hhd. simpl in *. lia.
    + cbn [map]. apply NoDup_cons. split; [| exact Hn].
      rewrite Hkeys. exact Hk.
Qed.

(** X14: [getAllEntries] lists active entries only, each key once, the
    most recently accessed first, and no more than the limit when it is
    not negative (a negative limit lists them all; 50 is the default).
    Each element carries the key, the parsed value, the hit count and the
    three times of its row in milliseconds.  The engine is not changed: no
    hit is counted. *)
Theorem getAllEntries_lists_active (c : SQLiteCache) (t : table) (now : Z)
    (limit : option Z) (es : list entry) :
  ready c t ->
  fst (getAllEntries now limit c) = Ok es ->
  snd (getAllEntries now limit c) = c /\
  (forall e, e ∈ es ->
     exists r v, t !! e_key e = Some r /\ now < expires_at r /\
                 JSON_parse (value r) = Some v /\ e = entry_of (e_key e) r v) /\
  Sorted (λ a b, e_accessed_at b <= e_accessed_at a) es /\
  NoDup (map e_key es) /\
  Z.of_nat (length es)
  = (let n := match limit with Some l => l | None => 50 end in
     if n <? 0 then count_rows (is_active now) t
     else Z.min n (count_rows (is_active now) t)).
Proof.
  intros [Hdb Hst]. unfold getAllEntries. rewrite Hdb, Hst. cbn [unusable].
  set (n := match limit with Some l => l | None => 50 end).
  destruct (map_rows (stmt_getAll now n t)) as [es'|] eqn:Hmap; [| discriminate].
  cbn [fst snd]. intros [= ->].
  apply map_rows_entries in Hmap.
  assert (NoDup (stmt_getAll now n t).*1) as Hnd.
  { eapply submseteq_NoDup; [| apply (NoDup_fst_map_to_list t)].
    apply fmap_submseteq, stmt_getAll_submseteq. }
  destruct (entries_of_rows _ _ Hmap (stmt_getAll_sorted now n t) Hnd) as (Hin & Hs & Hn).
  split; [reflexivity |]. split; [| split; [exact Hs | split; [exact Hn |]]].
  - intros e He. destruct (Hin e He) as (r & v & Hr & Hv & Heq).
    apply stmt_getAll_active in Hr as [Hr Hlive]. exists r, v. auto.
  - cbv zeta. fold n. rewrite <- stmt_getAll_length.
    apply Forall2_length in Hmap. lia.
Qed.

Lemma getAllEntries_lists_active_witness :
  fst (getAllEntries 5 None stored_engine) = Ok [entry_of "k" (busy_row 7) (VNum 1)] /\
  NoDup (map e_key [entry_of "k" (busy_row 7) (VNum 1)]).
Proof.
  assert (fst (getAllEntries 5 None stored_engine) = Ok [entry_of "k" (busy_row 7) (VNum 1)])
    as H by (vm_compute; reflexivity).
  split; [exact H |].
  apply (getAllEntries_lists_active stored_engine {["k" := busy_row 7]} 5 None _
           (conj eq_refl eq_refl) H).
Defined.



(** ** The middleware: what the handler writes *)

Lemma run_call_forwards now w a :
  out (res (run_call now w a)) = (out (res w) ++ forwarded_of [a])%list.
Proof.
  destruct a as [code | data | data]; cbn [run_call forwarded_of].
  - simpl. rewrite app_nil_r. reflexivity.
  - apply res_send_forwards.
  - apply res_json_forwards.
Qed.

Lemma run_calls_forward now calls w :
  out (res (fold_left (run_call now) calls w)) = (out (res w) ++ forwarded_of calls)%list.
Proof.
  revert w. induction calls as [| a calls IH]; intros w.
  - simpl. rewrite app_nil_r. reflexivity.
  - cbn [fold_left]. rewrite IH, run_call_forwards.
    rewrite <- app_assoc. f_equal. destruct a; reflexivity.
Qed.

(** X16: interception is transparent for the caller: whatever the state of
    the cache and of the response, every [res.send] and [res.json] of the
    handler reaches Express once, with its data unchanged and in order. *)
Theorem handler_output_is_forwarded (now : Z) (calls : list res_call) (w : world) :
  out (res (fold_left (run_call now) calls w)) = (out (res w) ++ forwarded_of calls)%list.
Proof.
  apply run_calls_forward.
Qed.

Lemma capture_disarms now i parsed w : intercept (res (capture now i parsed w)) = None.
Proof.
  unfold capture.
  destruct (negb (i_skipSuccessful i) && (statusCode (res (install None w)) >=? 200)
            && (statusCode (res (install None w)) <? 300)); [| reflexivity].
  destruct parsed as [v|]; [| reflexivity].
  destruct (set now (i_cacheKey i) v (Some (i_ttl i)) (cache (install None w))) as [[ok | e] c'];
    reflexivity.
Qed.

Lemma run_call_plain now w a :
  intercept (res w) = None ->
  intercept (res (run_call now w a)) = None /\
  cache (run_call now w a) = cache w /\
  console (run_call now w a) = console w /\
  headers (res (run_call now w a)) = headers (res w).
Proof.
  intros Hnone. destruct a as [code | data | data]; cbn [run_call].
  - repeat split. exact Hnone.
  - unfold res_send. rewrite Hnone. repeat split. exact Hnone.
  - unfold res_json. rewrite Hnone. repeat split. exact Hnone.
Qed.

Lemma run_calls_plain now calls w :
  intercept (res w) = None ->
  intercept (res (fold_left (run_call now) calls w)) = None /\
  cache (fold_left (run_call now) calls w) = cache w /\
  console (fold_left (run_call now) calls w) = console w /\
  headers (res (fold_left (run_call now) calls w)) = headers (res w).
Proof.
  revert w. induction calls as [| a calls IH]; intros w Hnone; [auto |].
  cbn [fold_left]. destruct (run_call_plain now w a Hnone) as (H1 & H2 & H3 & H4).
  destruct (IH _ H1) as (H1' & H2' & H3' & H4').
  repeat split; congruence.
Qed.

(** X17: the interceptors fire once: the first [res.send] or [res.json]
    puts the original functions back, and nothing the handler writes after
    it changes the cache, the headers or the log. *)
Theorem interceptor_fires_once (now : Z) (first : res_call) (rest : list res_call) (w : world) :
  (forall code, first <> Status code) ->
  let w1 := run_call now w first in
  intercept (res w1) = None /\
  cache (fold_left (run_call now) rest w1) = cache w1 /\
  headers (res (fold_left (run_call now) rest w1)) = headers (res w1) /\
  console (fold_left (run_call now) rest w1) = console w1.
Proof.
  intros Hfirst w1.
  assert (intercept (res w1) = None) as Hnone.
  { subst w1. destruct first as [code | data | data]; cbn [run_call].
    - exfalso. eapply Hfirst. reflexivity.
    - unfold res_send. destruct (intercept (res w)) eqn:Hi; [| exact Hi].
      simpl. apply capture_disarms.
    - unfold res_json. destruct (intercept (res w)) eqn:Hi; [| exact Hi].
      simpl. apply capture_disarms. }
  destruct (run_calls_plain now rest w1 Hnone) as (_ & H2 & H3 & H4).
  auto.
Qed.

Lemma interceptor_fires_once_witness :
  cache (fold_left (run_call 5) [Json (VNum 2)] (run_call 5 (world_of fresh_engine) (Json (VNum 1))))
  = cache (run_call 5 (world_of fresh_engine) (Json (VNum 1))).
Proof.
  apply (interceptor_fires_once 5 (Json (VNum 1)) [Json (VNum 2)] (world_of fresh_engine)).
  discriminate.
Defined.

(** ** The middleware: requests *)

(** X18: a request that is not a GET, or that the condition rejects, goes
    straight to its handler: the cache is neither read nor written, no
    header is set, nothing is logged, and what the handler writes is
    forwarded as it is. *)
Theorem ineligible_request_bypasses (options : middleware_options)
    (handler : request -> list res_call) (now later : Z) (req : request) (w : world)
    (eligible : bool) :
  condition_of options req = Ok eligible ->
  eligible = false \/ method req <> "GET" ->
  intercept (res w) = None ->
  createCacheMiddleware options now req w = Next w /\
  let s := serve options handler now later req w in
  invoked s = true /\ raised s = None /\
  cache (final s) = cache w /\
  headers (res (final s)) = headers (res w) /\
  console (final s) = console w /\
  out (res (final s)) = (out (res w) ++ forwarded_of (handler req))%list.
Proof.
  intros Hc Hskip Hnone.
  assert (createCacheMiddleware options now req w = Next w) as Hmw.
  { unfold createCacheMiddleware. rewrite Hc.
    destruct Hskip as [-> | Hm]; [reflexivity |].
    destruct (String.eqb_spec (method req) "GET"); [contradiction |].
    destruct eligible; reflexivity. }
  split; [exact Hmw |]. unfold serve. rewrite Hmw. cbn [invoked raised final].
  destruct (run_calls_plain later (handler req) w Hnone) as (_ & H2 & H3 & H4).
  repeat split; try assumption. apply run_calls_forward.
Qed.

Lemma ineligible_request_bypasses_witness :
  cache (final (serve default_options users_handler 1 2
                  {| method := "POST"; originalUrl := "/api/users" |}
                  (world_of fresh_engine)))
  = fresh_engine.
Proof.
  apply (ineligible_request_bypasses default_options users_handler 1 2
           {| method := "POST"; originalUrl := "/api/users" |} (world_of fresh_engine) true).
  - reflexivity.
  - right. discriminate.
  - reflexivity.
Defined.

Lemma hit_responds (options : middleware_options) (handler : request -> list res_call)
    (now later : Z) (req : request) (w : world) (t : table) (key : string) (r : row)
    (v : js_value) :
  ready (cache w) t ->
  t !! key = Some r ->
  now < expires_at r ->
  JSON_parse (value r) = Some v ->
  truthy v = true ->
  condition_of options req = Ok true ->
  method req = "GET" ->
  keyGenerator_of options req = Ok key ->
  serve options handler now later req w
  = {| invoked := false; raised := None;
       final := res_json now v
                  (res_set "X-Cache-Key" key
                     (res_set "X-Cache-Hit" "true"
                        (with_cache w (with_db (cache w) (Some (<[key := touch now r]> t)))))) |}.
Proof.
  intros Hready Hr Hlive Hv Htruthy Hc Hm Hk.
  assert (is_active now r = true) as Ha
    by (unfold is_active; destruct (Z.gtb_spec (expires_at r) now); [reflexivity | lia]).
  unfold serve, createCacheMiddleware.
  rewrite Hc, Hm, Hk, (get_hit _ _ _ _ _ _ Hready Hr Ha Hv),
    (stmt_updateAccess_insert now key t r Hr).
  change (String.eqb "GET" "GET") with true. cbn [negb orb]. rewrite Htruthy. reflexivity.
Qed.

(** X19: a hit: when the key of an eligible GET request has an active
    entry with a truthy value, the middleware answers with that value and
    the headers X-Cache-Hit: true and X-Cache-Key, the handler is not
    invoked, and the read is counted on the row. *)
Theorem cached_value_is_served (options : middleware_options)
    (handler : request -> list res_call) (now later : Z) (req : request) (w : world)
    (t : table) (key : string) (r : row) (v : js_value) :
  ready (cache w) t ->
  t !! key = Some r ->
  now < expires_at r ->
  JSON_parse (value r) = Some v ->
  truthy v = true ->
  condition_of options req = Ok true ->
  method req = "GET" ->
  keyGenerator_of options req = Ok key ->
  intercept (res w) = None ->
  let s := serve options handler now later req w in
  invoked s = false /\ raised s = None /\
  out (res (final s)) = (out (res w) ++ [ToJson v])%list /\
  headers (res (final s)) !! "X-Cache-Hit" = Some "true" /\
  headers (res (final s)) !! "X-Cache-Key" = Some key /\
  rows (cache (final s)) = <[key := touch now r]> t.
Proof.
  intros Hready Hr Hlive Hv Htruthy Hc Hm Hk Hnone s.
  subst s. rewrite (hit_responds options handler now later req w t key r v) by assumption.
  cbn [invoked raised final].
  unfold res_json. cbn [res_set with_cache res with_res intercept]. rewrite Hnone.
  cbn [forward res with_res out headers cache with_cache rows].
  unfold res_set, with_cache, with_res. cbn [res headers out cache].
  repeat split.
  - rewrite lookup_insert_ne by discriminate. apply lookup_insert_eq.
  - apply lookup_insert_eq.
Qed.

Lemma cached_value_is_served_witness :
  invoked (serve default_options users_handler 20 21 get_users
             (world_of (snd (set 10 "GET:/api/users" (VNum 7) None fresh_engine)))) = false.
Proof.
  apply (cached_value_is_served default_options users_handler 20 21 get_users
           (world_of (snd (set 10 "GET:/api/users" (VNum 7) None fresh_engine)))
           (rows (snd (set 10 "GET:/api/users" (VNum 7) None fresh_engine)))
           "GET:/api/users"
           {| value := "7"; expires_at := 3610; created_at := 10; accessed_at := 10;
              hit_count := 1 |}
           (VNum 7)); first [reflexivity | split; reflexivity].
Defined.

Lemma miss_installs (options : middleware_options) (now : Z) (req : request) (w : world)
    (t : table) (key : string) :
  ready (cache w) t ->
  t !! key = None \/ (exists r, t !! key = Some r /\ expires_at r <= now) ->
  condition_of options req = Ok true ->
  method req = "GET" ->
  keyGenerator_of options req = Ok key ->
  createCacheMiddleware options now req w
  = Next (install (Some {| i_cacheKey := key; i_ttl := ttl_of options;
                           i_skipSuccessful := skipSuccessful_of options |}) w).
Proof.
  intros Hready Habs Hc Hm Hk.
  pose proof (get_miss _ t now key Hready Habs) as Hget.
  unfold createCacheMiddleware. rewrite Hc, Hm, Hk, Hget.
  change (String.eqb "GET" "GET") with true. cbn [negb orb truthy].
  destruct w as [c0 r0 l0]. reflexivity.
Qed.



Lemma capture_skips now i parsed w :
  i_skipSuccessful i = true \/ statusCode (res w) < 200 \/ 300 <= statusCode (res w) ->
  capture now i parsed w = install None w.
Proof.
  intros H. unfold capture. cbn [install res with_res statusCode].
  destruct H as [-> | [H | H]]; [reflexivity | |].
  - destruct (Z.geb_spec (statusCode (res w)) 200); [lia |].
    rewrite Bool.andb_false_r. reflexivity.
  - destruct (Z.ltb_spec (statusCode (res w)) 300); [lia |].
    rewrite Bool.andb_false_r. reflexivity.
Qed.

(** X21: a response whose status is not 2xx is never stored: when the
    handler sets such a status and then answers, the answer is forwarded,
    the cache is as it was, no cache header is set and nothing is logged,
    so the next request with the key reaches its handler again. *)
Theorem failure_response_is_not_stored (options : middleware_options)
    (handler : request -> list res_call) (now later : Z) (req : request) (w : world)
    (t : table) (key : string) (code : Z) (answer : res_call) (rest : list res_call) :
  ready (cache w) t ->
  t !! key = None \/ (exists r, t !! key = Some r /\ expires_at r <= now) ->
  condition_of options req = Ok true -> method req = "GET" ->
  keyGenerator_of options req = Ok key ->
  intercept (res w) = None ->
  code < 200 \/ 300 <= code ->
  (forall c, answer <> Status c) ->
  handler req = Status code :: answer :: rest ->
  let s := serve options handler now later req w in
  invoked s = true /\
  cache (final s) = cache w /\
  headers (res (final s)) = headers (res w) /\
  console (final s) = console w /\
  out (res (final s)) = (out (res w) ++ forwarded_of (answer :: rest))%list.
Proof.
  intros Hready Habs Hc Hm Hk Hnone Hcode Hans Hh s.
  pose proof (miss_installs options now req w t key Hready Habs Hc Hm Hk) as Hmw.
  set (i := {| i_cacheKey := key; i_ttl := ttl_of options;
               i_skipSuccessful := skipSuccessful_of options |}) in *.
  set (w0 := res_status code (install (Some i) w)).
  set (w1 := run_call later w0 answer).
  assert (final s = fold_left (run_call later) rest w1 /\ invoked s = true) as [Hfinal Hinv].
  { subst s. unfold serve. rewrite Hmw, Hh. split; reflexivity. }
  assert (cache w1 = cache w /\ headers (res w1) = headers (res w) /\
          console w1 = console w /\ intercept (res w1) = None) as (H1 & H2 & H3 & H4).
  { subst w1. destruct answer as [c | data | data]; [exfalso; eapply Hans; reflexivity | |];
      cbn [run_call]; unfold res_send, res_json;
      cbn [w0 res_status install res with_res intercept];
      rewrite capture_skips by (right; exact Hcode);
      repeat split. }
  destruct (run_calls_plain later rest w1 H4) as (_ & Hc2 & Hl2 & Hh2).
  split; [exact Hinv |]. rewrite Hfinal.
  split; [congruence | split; [congruence | split; [congruence |]]].
  rewrite run_calls_forward. subst w1. rewrite run_call_forwards.
  rewrite <- app_assoc. f_equal.
  destruct answer; [exfalso; eapply Hans; reflexivity | reflexivity | reflexivity].
Qed.

Lemma failure_response_is_not_stored_witness :
  cache (final (serve default_options
                  (λ _, [Status 404; Json (VObj [("error", VStr "User not found")])])
                  10 11 get_users (world_of fresh_engine)))
  = fresh_engine.
Proof.
  apply (failure_response_is_not_stored default_options
           (λ _, [Status 404; Json (VObj [("error", VStr "User not found")])])
           10 11 get_users (world_of fresh_engine) ∅ "GET:/api/users" 404
           (Json (VObj [("error", VStr "User not found")])) []);
    first [reflexivity | apply fresh_engine_ready | (left; reflexivity) | (right; lia)
          | discriminate].
Defined.

Lemma run_calls_skip now calls w i :
  intercept (res w) = Some i -> i_skipSuccessful i = true ->
  cache (fold_left (run_call now) calls w) = cache w /\
  console (fold_left (run_call now) calls w) = console w /\
  headers (res (fold_left (run_call now) calls w)) = headers (res w).
Proof.
  revert w. induction calls as [| a calls IH]; intros w Hi Hskip; [auto |].
  cbn [fold_left]. destruct a as [code | data | data]; cbn [run_call].
  - destruct (IH (res_status code w)) as (H1 & H2 & H3); [exact Hi | exact Hskip |].
    rewrite H1, H2, H3. auto.
  - unfold res_send. rewrite Hi. rewrite capture_skips by (left; exact Hskip).
    destruct (run_calls_plain now calls (forward (ToSend data) (install None w)) eq_refl)
      as (_ & H1 & H2 & H3).
    rewrite H1, H2, H3. auto.
  - unfold res_json. rewrite Hi. rewrite capture_skips by (left; exact Hskip).
    destruct (run_calls_plain now calls (forward (ToJson data) (install None w)) eq_refl)
      as (_ & H1 & H2 & H3).
    rewrite H1, H2, H3. auto.
Qed.

(** X22: with the option [skipSuccessful] set, the middleware serves hits
    but never stores: on a miss, whatever the handler does, the cache is
    as it was, no cache header is set and nothing is logged. *)
Theorem skipSuccessful_stores_nothing (options : middleware_options)
    (handler : request -> list res_call) (now later : Z) (req : request) (w : world)
    (t : table) (key : string) :
  ready (cache w) t ->
  t !! key = None \/ (exists r, t !! key = Some r /\ expires_at r <= now) ->
  condition_of options req = Ok true -> method req = "GET" ->
  keyGenerator_of options req = Ok key ->
  skipSuccessful_of options = true ->
  let s := serve options handler now later req w in
  invoked s = true /\
  cache (final s) = cache w /\
  headers (res (final s)) = headers (res w) /\
  console (final s) = console w /\
  out (res (final s)) = (out (res w) ++ forwarded_of (handler req))%list.
Proof.
  intros Hready Habs Hc Hm Hk Hskip s.
  pose proof (miss_installs options now req w t key Hready Habs Hc Hm Hk) as Hmw.
  subst s. unfold serve. rewrite Hmw. cbn [invoked final].
  destruct (run_calls_skip later (handler req)
              (install (Some {| i_cacheKey := key; i_ttl := ttl_of options;
                                i_skipSuccessful := skipSuccessful_of options |}) w) _
              eq_refl Hskip) as (H1 & H2 & H3).
  rewrite H1, H2, H3, run_calls_forward. repeat split.
Qed.

Lemma skipSuccessful_stores_nothing_witness :
  cache (final (serve {| keyGenerator := None; ttl := None; condition := None;
                         skipSuccessful := Some true |}
                  users_handler 10 11 get_users (world_of fresh_engine)))
  = fresh_engine.
Proof.
  apply (skipSuccessful_stores_nothing
           {| keyGenerator := None; ttl := None; condition := None;
              skipSuccessful := Some true |}
           users_handler 10 11 get_users (world_of fresh_engine) ∅ "GET:/api/users");
    first [reflexivity | apply fresh_engine_ready | (left; reflexivity)].
Defined.



(** X24: a closed (or never initialised) cache does not break requests:
    the failed lookup is logged, no interceptor is installed, the handler
    runs and what it writes is forwarded; nothing is stored and no further
    error is logged. *)
Theorem closed_cache_is_transparent (options : middleware_options)
    (handler : request -> list res_call) (now later : Z) (req : request) (w : world)
    (key : string) :
  db (cache w) = None ->
  condition_of options req = Ok true -> method req = "GET" ->
  keyGenerator_of options req = Ok key ->
  intercept (res w) = None ->
  let s := serve options handler now later req w in
  invoked s = true /\ raised s = None /\
  cache (final s) = cache w /\
  console (final s) = (console w ++ ["Cache middleware error: Cache not initialized"])%list /\
  out (res (final s)) = (out (res w) ++ forwarded_of (handler req))%list.
Proof.
  intros Hdb Hc Hm Hk Hnone s.
  assert (get now key (cache w) = (Throw not_initialized, cache w)) as Hget
    by (unfold get; rewrite Hdb; reflexivity).
  pose proof (lookup_failure_calls_next options now req w key _ _ Hc Hm Hk Hget) as Hmw.
  subst s. unfold serve. rewrite Hmw. cbn [invoked raised final].
  set (w1 := console_error _ _).
  destruct (run_calls_plain later (handler req) w1 Hnone) as (_ & H1 & H2 & _).
  rewrite H1, H2, run_calls_forward.
  subst w1. destruct w. repeat split.
Qed.

Lemma closed_cache_is_transparent_witness :
  invoked (serve default_options users_handler 10 11 get_users
             (world_of (close fresh_engine))) = true.
Proof.
  apply (closed_cache_is_transparent default_options users_handler 10 11 get_users
           (world_of (close fresh_engine)) "GET:/api/users"); reflexivity.
Defined.

(** ** The management routes *)

Lemma match_path_param (a b c : string) (path params : list string) :
  match_path [Lit a; Lit b; Lit c] path = Some params ->
  exists key, match_path [Lit a; Lit b; Param] path = Some [key].
Proof.
  destruct path as [| s1 [| s2 [| s3 [| s4 path]]]]; cbn [match_path];
    try discriminate;
    try (destruct (String.eqb (lower a) (lower s1)); discriminate);
    try (destruct (String.eqb (lower a) (lower s1)); [| discriminate];
         destruct (String.eqb (lower b) (lower s2)); discriminate).
  - destruct (String.eqb (lower a) (lower s1)); [| discriminate].
    destruct (String.eqb (lower b) (lower s2)); [| discriminate].
    intros _. eauto.
  - destruct (String.eqb (lower a) (lower s1)); [| discriminate].
    destruct (String.eqb (lower b) (lower s2)); [| discriminate].
    destruct (String.eqb (lower c) (lower s3)); discriminate.
Qed.

(** X25: the route for manual reclamation cannot be reached: it is
    registered after [POST /api/cache/:key], which matches its path, so no
    request is dispatched to it, and [POST /api/cache/cleanup] goes to the
    route that sets an entry, with the key 'cleanup'. *)
Theorem cleanup_route_is_shadowed (method : string) (path params : list string) :
  dispatch method path <> Some (CacheCleanup, params) /\
  dispatch "POST" ["api"; "cache"; "cleanup"] = Some (CacheSet, ["cleanup"]).
Proof.
  split; [| reflexivity].
  unfold dispatch, routes. cbn [first_match].
  repeat match goal with
         | |- context [handles_method ?m ?x] => destruct (handles_method m x)
         end;
    repeat match goal with
           | |- context [match_path ?p ?x] =>
               let E := fresh "E" in
               destruct (match_path p x) eqn:E; try discriminate
           end;
    try discriminate.
  all: match goal with
       | H : match_path [Lit "api"; Lit "cache"; Lit "cleanup"] _ = Some _ |- _ =>
           apply match_path_param in H as [key Hkey]; congruence
       end.
Qed.

Lemma dispatch_post_key (key : string) :
  dispatch "POST" ["api"; "cache"; key] = Some (CacheSet, [key]).
Proof. reflexivity. Qed.

Lemma dispatch_get_key (key : string) :
  lower key <> "stats" -> lower key <> "entries" ->
  dispatch "GET" ["api"; "cache"; key] = Some (CacheGet, [key]).
Proof.
  intros Hstats Hentries.
  unfold dispatch, routes. cbn [first_match match_path].
  change (lower "api") with "api". change (lower "cache") with "cache".
  change (lower "users") with "users". change (lower "stats") with "stats".
  change (lower "entries") with "entries". change (lower "posts") with "posts".
  change (lower "expensive") with "expensive".
  change (handles_method "GET" "GET") with true. change (String.eqb "api" "api") with true.
  change (String.eqb "cache" "cache") with true.
  change (String.eqb "users" "cache") with false.
  change (String.eqb "posts" "cache") with false.
  change (String.eqb "expensive" "cache") with false.
  cbv iota.
  destruct (String.eqb_spec "stats" (lower key)) as [E | _]; [congruence |].
  destruct (String.eqb_spec "entries" (lower key)) as [E | _]; [congruence |].
  reflexivity.
Qed.

Lemma cache_set_route_stores (now : Z) (key : string) (v : js_value) (ttl : option Z)
    (c : SQLiteCache) (t : table) (s : string) :
  ready c t -> JSON_stringify v = Some s ->
  cache_set_route now key v ttl (world_of c)
  = forward (ToJson (VObj [("success", VBool true);
                           ("message", VStr "Cache entry set successfully");
                           ("key", VStr key)]))
      (world_of (with_db c (Some (stmt_set now key s (now + or_default ttl (defaultTTL c)) t)))).
Proof.
  intros Hready Hs. unfold cache_set_route. cbn [world_of cache].
  rewrite (set_ready c t now key v ttl s Hready Hs).
  destruct v; try reflexivity. discriminate Hs.
Qed.

(** X26: [POST /api/cache/cleanup] reclaims nothing: every row under
    another key, expired or not, stays in the table.  Without a [value] in
    the body the answer is 400 'Value is required' and the engine is
    unchanged; with one, the value is stored under the key 'cleanup' for the
    default ttl. *)
Theorem post_cleanup_reclaims_nothing (now : Z) (v : js_value) (c : SQLiteCache) (t : table) :
  ready c t ->
  exists w',
    handle now (api_post "cleanup" v None) (world_of c) = Some w' /\
    (forall k r, k <> "cleanup" -> t !! k = Some r -> rows (cache w') !! k = Some r) /\
    (v = VUndefined ->
     cache w' = c /\ statusCode (res w') = 400 /\
     out (res w') = [ToJson (VObj [("error", VStr "Value is required")])]) /\
    (forall s, JSON_stringify v = Some s ->
     rows (cache w')
     = <["cleanup" := {| value := s; expires_at := now + defaultTTL c; created_at := now;
                         accessed_at := now; hit_count := 1 |}]> t /\
     statusCode (res w') = 200 /\
     out (res w') = [ToJson (VObj [("success", VBool true);
                                   ("message", VStr "Cache entry set successfully");
                                   ("key", VStr "cleanup")])]).
Proof.
  intros Hready. unfold handle. cbn [api_post a_method a_path a_value a_ttl].
  rewrite dispatch_post_key.
  assert (rows c = t) as Hrows by (destruct Hready as [Hdb _]; unfold rows; rewrite Hdb; reflexivity).
  destruct (JSON_stringify v) as [s |] eqn:Hs.
  - rewrite (cache_set_route_stores now "cleanup" v None c t s Hready Hs).
    eexists. split; [reflexivity |]. cbn [forward world_of cache res with_res statusCode out].
    rewrite rows_with_db. unfold stmt_set. cbn [or_default new_response statusCode out].
    split; [| split].
    + intros k r Hne Hr. rewrite lookup_insert_ne by congruence. exact Hr.
    + intros ->. discriminate Hs.
    + intros s' [= <-]. repeat split.
  - eexists. split; [reflexivity |].
    assert (cache_set_route now "cleanup" v None (world_of c)
            = respond_error now (match v with VUndefined => 400 | _ => 500 end)
                (match v with
                 | VUndefined => "Value is required"
                 | _ => "Failed to set cache: " ++ bind_error
                 end) (world_of c)) as ->.
    { unfold cache_set_route, set. destruct Hready as [Hdb Hst].
      cbn [world_of cache]. rewrite Hdb, Hst, Hs. cbn [unusable].
      destruct v; reflexivity. }
    unfold respond_error, res_json, res_status, forward, with_res.
    cbn [world_of res cache intercept new_response statusCode out headers].
    rewrite Hrows. split; [| split].
    + intros k r _ Hr. exact Hr.
    + intros ->. repeat split.
    + intros s' [=].
Qed.

Lemma post_cleanup_reclaims_nothing_witness :
  exists w',
    handle 20 (api_post "cleanup" VUndefined None) (world_of stored_engine) = Some w' /\
    rows (cache w') !! "k" = Some (busy_row 7) /\ statusCode (res w') = 400.
Proof.
  destruct (post_cleanup_reclaims_nothing 20 VUndefined stored_engine {["k" := busy_row 7]})
    as (w' & Hh & Hk & Hu & _).
  - split; reflexivity.
  - exists w'. split; [exact Hh |]. split.
    + apply Hk; [discriminate | reflexivity].
    + apply Hu. reflexivity.
Defined.


